(** * Device buffers, IPC handles and the buffered writer of
      [cpp/src/arrow/gpu/cuda_memory.cc]

    A shallow embedding of the CUDA buffer layer of Arrow.  The C++ objects
    become records, every [Status]-returning method becomes a function that
    returns the status together with the new state of the object and of the
    device context, and device memory is a finite map from device addresses
    to bytes.

    Conventions.
    - [int64_t] values are [Z].  Signed overflow is undefined in C++, so the
      embedding describes the executions in which no sum leaves the range.
    - A pair [(const void* data, int64_t nbytes)] of a C++ signature is the
      list of the [nbytes] bytes found at [data]; [nbytes] is its length.
    - [std::mutex lock_] of the writer is not represented: the embedding is
      sequential, one call runs to completion before the next one starts.
    - The destructor of [CudaHostBuffer] is left out.  It runs when
      [SetBufferSize] replaces a host buffer allocated earlier and returns the
      pinned memory to the device manager with [FreeHost]; that call is not
      in the record of calls kept here. *)

From Stdlib Require Import ZArith Lia Strings.Byte.
From stdpp Require Import base gmap list strings.

Local Open Scope Z_scope.

(** ** Status *)

(** [arrow::Status], restricted to the codes this file produces. *)
Inductive Status :=
| OK
| OutOfMemory (msg : string)
| Invalid (msg : string)
| IOError (msg : string).

Definition ok (st : Status) : bool :=
  match st with OK => true | _ => false end.

(** Modelled from the spec: the DCHECK macros of arrow/util/logging.h, which
    is not among the sources.  The spec treats them as fatal assertions, so a
    call either completes or aborts the process with the assertion's text. *)
Inductive Outcome (A : Type) :=
| Completed (a : A)
| Aborted (msg : string).
Arguments Completed {A} a.
Arguments Aborted {A} msg.

(** ** Host memory *)

(** [memcpy dst off src n] is the C call [memcpy(dst + off, src, n)] on a host
    array [dst]: [n] bytes of [src] replace the bytes [off .. off + n) of
    [dst].  C defines it when [off + n <= length dst] and [n <= length src]. *)
Definition memcpy (dst : list byte) (off : nat) (src : list byte) (n : nat)
  : list byte :=
  take off dst ++ take n src ++ drop (off + n) dst.

(** ** Device memory *)

(** The mapped device addresses and the byte each one holds. *)
Fixpoint range_mapped (m : gmap Z byte) (a : Z) (n : nat) : bool :=
  match n with
  | O => true
  | S n' => bool_decide (is_Some (m !! a)) && range_mapped m (a + 1) n'
  end.

Fixpoint store (m : gmap Z byte) (a : Z) (bs : list byte) : gmap Z byte :=
  match bs with
  | [] => m
  | b :: bs' => store (<[a := b]> m) (a + 1) bs'
  end.

Fixpoint load (m : gmap Z byte) (a : Z) (n : nat) : option (list byte) :=
  match n with
  | O => Some []
  | S n' =>
      match m !! a, load m (a + 1) n' with
      | Some b, Some bs => Some (b :: bs)
      | _, _ => None
      end
  end.

Fixpoint unmap (m : gmap Z byte) (a : Z) (n : nat) : gmap Z byte :=
  match n with
  | O => m
  | S n' => unmap (delete a m) (a + 1) n'
  end.

(** ** IPC memory handle *)

Module CudaIpcMemHandle.

(** Modelled from the spec: [sizeof(CUipcMemHandle)], the fixed width of the
    driver token.  cuda.h is not among the sources; the CUDA driver API
    declares the token as an array of CU_IPC_HANDLE_SIZE = 64 chars. *)
Definition kHandleSize : nat := 64.

(** [CudaIpcMemHandleImpl]: the token, [kHandleSize] bytes when the
    handle was built from at least that many readable bytes. *)
Record t := { ipc_handle : list byte }.

(** [CudaIpcMemHandleImpl(const void* handle)]: the memcpy fills the whole
    token from the first [kHandleSize] bytes at [handle]. *)
Definition CudaIpcMemHandleImpl (handle : list byte) : t :=
  {| ipc_handle := take kHandleSize handle |}.

(** [CudaIpcMemHandle(const void* handle)] *)
Definition CudaIpcMemHandle (handle : list byte) : t :=
  CudaIpcMemHandleImpl handle.

Definition FromBuffer (opaque_handle : list byte) : Status * t :=
  (OK, CudaIpcMemHandle opaque_handle).

(** [handle()] *)
Definition handle (h : t) : list byte := ipc_handle h.

(** Modelled from the spec: [arrow::MemoryPool] and [AllocateBuffer] of
    arrow/buffer.h, which are not among the sources.  The pool is the list
    of bytes it can still hand out; a fresh buffer holds whatever bytes were
    there, and a request the pool cannot serve is an out-of-memory error. *)
Record MemoryPool := { free_bytes : list byte }.

Definition AllocateBuffer (pool : MemoryPool) (size : Z)
  : Status * list byte * MemoryPool :=
  if (0 <=? size) && (size <=? Z.of_nat (length (free_bytes pool))) then
    (OK, take (Z.to_nat size) (free_bytes pool),
     {| free_bytes := drop (Z.to_nat size) (free_bytes pool) |})
  else (OutOfMemory "malloc of size failed", [], pool).

(** [Serialize(pool, out)]; [out] is set only when the call succeeds. *)
Definition Serialize (h : t) (pool : MemoryPool)
  : Status * option (list byte) * MemoryPool :=
  match AllocateBuffer pool (Z.of_nat kHandleSize) with
  | (OK, buffer, pool') =>
      (OK, Some (memcpy buffer 0 (ipc_handle h) kHandleSize), pool')
  | (failed, _, pool') => (failed, None, pool')
  end.

End CudaIpcMemHandle.

(** ** Device context *)

(** The calls that reach the device context, the device manager or the
    driver, in the order they were made; the [FreeHost] of a host buffer
    that is released is not recorded. *)
Inductive DriverCall :=
| Call_Free (address size : Z)
| Call_CopyHostToDevice (dst : Z) (src : list byte)
| Call_CopyDeviceToHost (src nbytes : Z)
| Call_ExportIpcBuffer (address : Z)
| Call_IpcCloseMemHandle (address : Z)
| Call_AllocateHost (size : Z).

Module CudaContext.

(** Modelled from the spec: the device context and device manager
    (arrow/gpu/cuda_context.cc) and the driver calls behind them, which are
    not among the sources.  The state is the content of the mapped device
    memory together with the record of the calls received.  A transfer
    succeeds when every address of its range is mapped and otherwise leaves
    the memory as it was and reports the driver's error. *)
Record t := {
  device_memory : gmap Z byte;
  driver_calls : list DriverCall
}.

Definition record_call (c : DriverCall) (ctx : t) : t :=
  {| device_memory := device_memory ctx;
     driver_calls := driver_calls ctx ++ [c] |}.

Definition set_device_memory (m : gmap Z byte) (ctx : t)
  : t :=
  {| device_memory := m; driver_calls := driver_calls ctx |}.

Definition driver_error : Status := IOError "Cuda Driver API call failed".

Definition byte_of_Z (z : Z) : byte :=
  default x00 (Byte.of_N (Z.to_N (z mod 256))).

(** The token the driver issues for an address: the address in little-endian
    order, padded to the token's width. *)
Definition driver_token (address : Z) : list byte :=
  map (fun i : nat => byte_of_Z (Z.shiftr address (8 * Z.of_nat i)))
      (seq 0 CudaIpcMemHandle.kHandleSize).

Definition CopyHostToDevice (ctx : t) (dst : Z) (src : list byte)
  : Status * t :=
  let ctx' := record_call (Call_CopyHostToDevice dst src) ctx in
  if range_mapped (device_memory ctx) dst (length src) then
    (OK, set_device_memory (store (device_memory ctx) dst src) ctx')
  else (driver_error, ctx').

Definition CopyDeviceToHost (ctx : t) (src : Z) (nbytes : Z)
  : Status * option (list byte) * t :=
  let ctx' := record_call (Call_CopyDeviceToHost src nbytes) ctx in
  if 0 <=? nbytes then
    match load (device_memory ctx) src (Z.to_nat nbytes) with
    | Some bs => (OK, Some bs, ctx')
    | None => (driver_error, None, ctx')
    end
  else (driver_error, None, ctx').

Definition Free (ctx : t) (address size : Z)
  : Status * t :=
  let ctx' := record_call (Call_Free address size) ctx in
  if (0 <=? size) && range_mapped (device_memory ctx) address (Z.to_nat size)
  then
    (OK, set_device_memory
           (unmap (device_memory ctx) address (Z.to_nat size)) ctx')
  else (driver_error, ctx').

Definition ExportIpcBuffer (ctx : t) (address : Z)
  : Status * option CudaIpcMemHandle.t * t :=
  let ctx' := record_call (Call_ExportIpcBuffer address) ctx in
  if bool_decide (is_Some (device_memory ctx !! address)) then
    (OK, Some (CudaIpcMemHandle.CudaIpcMemHandle (driver_token address)),
     ctx')
  else (driver_error, None, ctx').

(** [cuIpcCloseMemHandle]: drops the local mapping of imported memory; the
    allocation itself belongs to the exporting process and stays. *)
Definition cuIpcCloseMemHandle (ctx : t) (address : Z)
  : Status * t :=
  let ctx' := record_call (Call_IpcCloseMemHandle address) ctx in
  if bool_decide (is_Some (device_memory ctx !! address)) then (OK, ctx')
  else (driver_error, ctx').

(** [CudaDeviceManager::AllocateHost]: a pinned host buffer of [size]
    bytes. *)
Definition AllocateHost (ctx : t) (size : Z)
  : Status * list byte * t :=
  let ctx' := record_call (Call_AllocateHost size) ctx in
  if 0 <=? size then (OK, replicate (Z.to_nat size) x00, ctx')
  else (driver_error, [], ctx').

End CudaContext.

(** [AllocateCudaHostBuffer] *)
Definition AllocateCudaHostBuffer (ctx : CudaContext.t) (size : Z)
  : Status * list byte * CudaContext.t :=
  CudaContext.AllocateHost ctx size.

(** ** Sequencing of fallible calls *)

(** A method of an object of state [S] returns its status, the new state of
    the object and the new state of the device context.  [RETURN_NOT_OK]
    is the macro of arrow/status.h: a failed call ends the caller at once,
    with the failure as its result and the state as the failed call left
    it. *)
Definition Result (S : Type) : Type := Status * S * CudaContext.t.

Notation "'RETURN_NOT_OK' ( s , c ) := e 'in' k" :=
  (match e with
   | (OK, s, c) => k
   | failed => failed
   end)
  (at level 10, s name, c name, e at level 200, k at level 200,
   format "'[v' 'RETURN_NOT_OK'  ( s ,  c )  :=  e  'in' '/' k ']'").

(** A call into the context made by an object whose own state is [s]. *)
Definition context_call {S : Type} (s : S) (r : Status * CudaContext.t)
  : Result S :=
  (r.1, s, r.2).

(** ** Device buffer *)

Module CudaBuffer.

Record t := {
  data_ : Z;
  mutable_data_ : Z;
  size_ : Z;
  is_mutable_ : bool;
  own_data_ : bool;
  is_ipc_ : bool
}.

Definition set_own_data_ (v : bool) (b : t) : t :=
  {| data_ := data_ b; mutable_data_ := mutable_data_ b; size_ := size_ b;
     is_mutable_ := is_mutable_ b; own_data_ := v; is_ipc_ := is_ipc_ b |}.

(** [CudaBuffer(data, size, context, own_data, is_ipc)] *)
Definition CudaBuffer (data size : Z) (own_data is_ipc : bool) : t :=
  {| data_ := data; mutable_data_ := data; size_ := size;
     is_mutable_ := true; own_data_ := own_data; is_ipc_ := is_ipc |}.

(** [CudaBuffer(parent, offset, size)], the slice of a parent buffer.  The
    base constructor [Buffer(parent, offset, size)] of arrow/buffer.h
    addresses the parent's data at [offset] and leaves the buffer
    immutable, with a null mutable pointer. *)
Definition CudaBuffer_slice (parent : t) (offset size : Z) : t :=
  {| data_ := data_ parent + offset; mutable_data_ := 0; size_ := size;
     is_mutable_ := false; own_data_ := false; is_ipc_ := false |}.

Definition Close (b : t) (ctx : CudaContext.t) : Status * CudaContext.t :=
  if own_data_ b then
    if is_ipc_ b then
      match CudaContext.cuIpcCloseMemHandle ctx (mutable_data_ b) with
      | (OK, ctx') => (OK, ctx')
      | failed => failed
      end
    else CudaContext.Free ctx (mutable_data_ b) (size_ b)
  else (OK, ctx).


Definition CopyToHost (b : t) (ctx : CudaContext.t) (position nbytes : Z)
  : Status * option (list byte) * CudaContext.t :=
  CudaContext.CopyDeviceToHost ctx (data_ b + position) nbytes.

Definition CopyFromHost (b : t) (ctx : CudaContext.t) (position : Z)
           (data : list byte) : Outcome (Status * CudaContext.t) :=
  let nbytes := Z.of_nat (length data) in
  if nbytes <=? size_ b - position then
    Completed (CudaContext.CopyHostToDevice ctx (mutable_data_ b + position)
                                            data)
  else Aborted "Copy would overflow buffer".

Definition ExportForIpc (b : t) (ctx : CudaContext.t)
  : Status * option CudaIpcMemHandle.t * t * CudaContext.t :=
  if is_ipc_ b then
    (Invalid "Buffer has already been exported for IPC", None, b, ctx)
  else
    match CudaContext.ExportIpcBuffer ctx (mutable_data_ b) with
    | (OK, handle, ctx') => (OK, handle, set_own_data_ false b, ctx')
    | (failed, handle, ctx') => (failed, handle, b, ctx')
    end.

End CudaBuffer.

(** ** Buffered writer *)

Module CudaBufferWriterImpl.

(** [host_buffer_data_] is the content of the pinned host buffer
    [host_buffer_] that stages the writes; it is empty until
    [SetBufferSize] allocates one. *)
Record t := {
  buffer_ : CudaBuffer.t;
  mutable_data_ : Z;
  size_ : Z;
  position_ : Z;
  buffer_size_ : Z;
  buffer_position_ : Z;
  host_buffer_data_ : list byte
}.

Definition set_position_ (v : Z) (w : t) : t :=
  {| buffer_ := buffer_ w; mutable_data_ := mutable_data_ w;
     size_ := size_ w; position_ := v; buffer_size_ := buffer_size_ w;
     buffer_position_ := buffer_position_ w;
     host_buffer_data_ := host_buffer_data_ w |}.

Definition set_buffer_position_ (v : Z) (w : t) : t :=
  {| buffer_ := buffer_ w; mutable_data_ := mutable_data_ w;
     size_ := size_ w; position_ := position_ w;
     buffer_size_ := buffer_size_ w; buffer_position_ := v;
     host_buffer_data_ := host_buffer_data_ w |}.

Definition set_buffer_size_ (v : Z) (w : t) : t :=
  {| buffer_ := buffer_ w; mutable_data_ := mutable_data_ w;
     size_ := size_ w; position_ := position_ w; buffer_size_ := v;
     buffer_position_ := buffer_position_ w;
     host_buffer_data_ := host_buffer_data_ w |}.

Definition set_host_buffer_data_ (v : list byte) (w : t) : t :=
  {| buffer_ := buffer_ w; mutable_data_ := mutable_data_ w;
     size_ := size_ w; position_ := position_ w;
     buffer_size_ := buffer_size_ w;
     buffer_position_ := buffer_position_ w; host_buffer_data_ := v |}.

(** The constructor; its DCHECK rejects an immutable buffer. *)
Definition CudaBufferWriterImpl (buffer : CudaBuffer.t) : Outcome t :=
  if CudaBuffer.is_mutable_ buffer then
    Completed {| buffer_ := buffer;
                 mutable_data_ := CudaBuffer.mutable_data_ buffer;
                 size_ := CudaBuffer.size_ buffer;
                 position_ := 0;
                 buffer_size_ := 0;
                 buffer_position_ := 0;
                 host_buffer_data_ := [] |}
  else Aborted "Must pass mutable buffer".

Definition Seek (w : t) (ctx : CudaContext.t) (position : Z) : Result t :=
  if (position <? 0) || (size_ w <=? position) then
    (IOError "position out of bounds", w, ctx)
  else (OK, set_position_ position w, ctx).

Definition Flush (w : t) (ctx : CudaContext.t) : Result t :=
  if (0 <? buffer_size_ w) && (0 <? buffer_position_ w) then
    RETURN_NOT_OK (w, ctx) :=
      context_call w
        (CudaContext.CopyHostToDevice ctx
           (mutable_data_ w + position_ w - buffer_position_ w)
           (take (Z.to_nat (buffer_position_ w)) (host_buffer_data_ w))) in
    (OK, set_buffer_position_ 0 w, ctx)
  else (OK, w, ctx).

Definition Tell (w : t) : Status * Z := (OK, position_ w).

Definition Write (w : t) (ctx : CudaContext.t) (data : list byte)
  : Result t :=
  let nbytes := Z.of_nat (length data) in
  if nbytes =? 0 then (OK, w, ctx)
  else
    RETURN_NOT_OK (w, ctx) :=
      (if 0 <? buffer_size_ w then
         if buffer_size_ w <=? nbytes + buffer_position_ w then
           RETURN_NOT_OK (w, ctx) := Flush w ctx in
           context_call w
             (CudaContext.CopyHostToDevice ctx
                (mutable_data_ w + position_ w) data)
         else
           (OK,
            set_buffer_position_ (buffer_position_ w + nbytes)
              (set_host_buffer_data_
                 (memcpy (host_buffer_data_ w)
                         (Z.to_nat (buffer_position_ w)) data
                         (length data)) w),
            ctx)
       else
         context_call w
           (CudaContext.CopyHostToDevice ctx
              (mutable_data_ w + position_ w) data)) in
    (OK, set_position_ (position_ w + nbytes) w, ctx).

Definition WriteAt (w : t) (ctx : CudaContext.t) (position : Z)
           (data : list byte) : Result t :=
  RETURN_NOT_OK (w, ctx) := Seek w ctx position in
  Write w ctx data.

Definition SetBufferSize (w : t) (ctx : CudaContext.t) (buffer_size : Z)
  : Result t :=
  RETURN_NOT_OK (w, ctx) :=
    (if 0 <? buffer_position_ w then Flush w ctx else (OK, w, ctx)) in
  match AllocateCudaHostBuffer ctx buffer_size with
  | (OK, host_buffer, ctx) =>
      (OK, set_buffer_size_ buffer_size
             (set_host_buffer_data_ host_buffer w), ctx)
  | (failed, _, ctx) => (failed, w, ctx)
  end.

Definition buffer_size (w : t) : Z := buffer_size_ w.

Definition buffer_position (w : t) : Z := buffer_position_ w.

End CudaBufferWriterImpl.

(** The public writer holds nothing but its [impl_]. *)
Module CudaBufferWriter.

Definition CudaBufferWriter (buffer : CudaBuffer.t)
  : Outcome CudaBufferWriterImpl.t :=
  CudaBufferWriterImpl.CudaBufferWriterImpl buffer.

Definition Flush (impl_ : CudaBufferWriterImpl.t) (ctx : CudaContext.t)
  : Result CudaBufferWriterImpl.t :=
  CudaBufferWriterImpl.Flush impl_ ctx.

Definition Close (impl_ : CudaBufferWriterImpl.t) (ctx : CudaContext.t)
  : Result CudaBufferWriterImpl.t :=
  Flush impl_ ctx.

Definition Seek (impl_ : CudaBufferWriterImpl.t) (ctx : CudaContext.t)
           (position : Z) : Result CudaBufferWriterImpl.t :=
  RETURN_NOT_OK (impl_, ctx) :=
    (if 0 <? CudaBufferWriterImpl.buffer_position impl_
     then Flush impl_ ctx else (OK, impl_, ctx)) in
  CudaBufferWriterImpl.Seek impl_ ctx position.

Definition Tell (impl_ : CudaBufferWriterImpl.t) : Status * Z :=
  CudaBufferWriterImpl.Tell impl_.

Definition Write (impl_ : CudaBufferWriterImpl.t) (ctx : CudaContext.t)
           (data : list byte) : Result CudaBufferWriterImpl.t :=
  CudaBufferWriterImpl.Write impl_ ctx data.

Definition WriteAt (impl_ : CudaBufferWriterImpl.t) (ctx : CudaContext.t)
           (position : Z) (data : list byte)
  : Result CudaBufferWriterImpl.t :=
  CudaBufferWriterImpl.WriteAt impl_ ctx position data.

Definition SetBufferSize (impl_ : CudaBufferWriterImpl.t)
           (ctx : CudaContext.t) (buffer_size : Z)
  : Result CudaBufferWriterImpl.t :=
  CudaBufferWriterImpl.SetBufferSize impl_ ctx buffer_size.

Definition buffer_size (impl_ : CudaBufferWriterImpl.t) : Z :=
  CudaBufferWriterImpl.buffer_size impl_.

Definition num_bytes_buffered (impl_ : CudaBufferWriterImpl.t) : Z :=
  CudaBufferWriterImpl.buffer_position impl_.

End CudaBufferWriter.

(** ** Buffer reader *)

Module CudaBufferReader.

(** Modelled from the spec: the base class [io::BufferReader] of
    arrow/io/memory.h, which is not among the sources.  It keeps the
    address [data_] and the size [size_] of the buffer it reads and a read
    cursor [position_] that starts at 0. *)
Record t := {
  cuda_buffer_ : CudaBuffer.t;
  data_ : Z;
  size_ : Z;
  position_ : Z
}.

Definition set_position_ (v : Z) (r : t) : t :=
  {| cuda_buffer_ := cuda_buffer_ r; data_ := data_ r; size_ := size_ r;
     position_ := v |}.

Definition CudaBufferReader (buffer : CudaBuffer.t) : t :=
  {| cuda_buffer_ := buffer; data_ := CudaBuffer.data_ buffer;
     size_ := CudaBuffer.size_ buffer; position_ := 0 |}.

(** [Read(nbytes, bytes_read, buffer)]: the result carries [bytes_read],
    which is set before the transfer, and the bytes the transfer put into
    the caller's buffer. *)
Definition Read (r : t) (ctx : CudaContext.t) (nbytes : Z)
  : Status * Z * option (list byte) * t * CudaContext.t :=
  let nbytes := Z.min nbytes (size_ r - position_ r) in
  match CudaContext.CopyDeviceToHost ctx (data_ r + position_ r) nbytes with
  | (OK, buffer, ctx') =>
      (OK, nbytes, buffer, set_position_ (position_ r + nbytes) r, ctx')
  | (failed, buffer, ctx') => (failed, nbytes, buffer, r, ctx')
  end.

(** [Read(nbytes, out)]: the slice of the buffer at the cursor. *)
Definition Read_buffer (r : t) (nbytes : Z) : Status * CudaBuffer.t * t :=
  let size := Z.min nbytes (size_ r - position_ r) in
  (OK, CudaBuffer.CudaBuffer_slice (cuda_buffer_ r) (position_ r) size,
   set_position_ (position_ r + size) r).

End CudaBufferReader.

(** ** Callers used to state the properties *)

(** A caller that issues the writes of [chunks] in turn and stops at the
    first one that fails. *)
Fixpoint WriteAll (w : CudaBufferWriterImpl.t) (ctx : CudaContext.t)
         (chunks : list (list byte)) : Result CudaBufferWriterImpl.t :=
  match chunks with
  | [] => (OK, w, ctx)
  | data :: rest =>
      RETURN_NOT_OK (w, ctx) := CudaBufferWriter.Write w ctx data in
      WriteAll w ctx rest
  end.

Definition WriteAllThenFlush (w : CudaBufferWriterImpl.t)
           (ctx : CudaContext.t) (chunks : list (list byte))
  : Result CudaBufferWriterImpl.t :=
  RETURN_NOT_OK (w, ctx) := WriteAll w ctx chunks in
  CudaBufferWriter.Flush w ctx.

(** The staged bytes of a writer: the first [buffer_position_] bytes of its
    host buffer. *)
Definition staged (w : CudaBufferWriterImpl.t) : list byte :=
  take (Z.to_nat (CudaBufferWriterImpl.buffer_position_ w))
       (CudaBufferWriterImpl.host_buffer_data_ w).

(** The calls of the public writer interface that change the writer. *)
Inductive WriterCall :=
| Call_Write (data : list byte)
| Call_Flush
| Call_SetBufferSize (buffer_size : Z)
| Call_Seek (position : Z)
| Call_WriteAt (position : Z) (data : list byte)
| Call_Close.

Definition call (c : WriterCall) (w : CudaBufferWriterImpl.t)
           (ctx : CudaContext.t) : Result CudaBufferWriterImpl.t :=
  match c with
  | Call_Write data => CudaBufferWriter.Write w ctx data
  | Call_Flush => CudaBufferWriter.Flush w ctx
  | Call_SetBufferSize buffer_size =>
      CudaBufferWriter.SetBufferSize w ctx buffer_size
  | Call_Seek position => CudaBufferWriter.Seek w ctx position
  | Call_WriteAt position data => CudaBufferWriter.WriteAt w ctx position data
  | Call_Close => CudaBufferWriter.Close w ctx
  end.

(** The states a writer can be in: the state its constructor builds, and
    the state any call leaves, whether the call succeeded or failed.  The
    context is shared with the buffers and with other writers, so a call may
    find it in any state. *)
Inductive reachable : CudaBufferWriterImpl.t → Prop :=
| reachable_new buffer w :
    CudaBufferWriter.CudaBufferWriter buffer = Completed w → reachable w
| reachable_call c w ctx :
    reachable w → reachable (call c w ctx).1.2.

(** The relation between the staging fields that every call preserves. *)
Definition staging_wf (w : CudaBufferWriterImpl.t) : Prop :=
  0 <= CudaBufferWriterImpl.buffer_position_ w ∧
  (CudaBufferWriterImpl.buffer_position_ w = 0 ∨
   CudaBufferWriterImpl.buffer_position_ w
   < CudaBufferWriterImpl.buffer_size_ w) ∧
  (0 < CudaBufferWriterImpl.buffer_size_ w →
   Z.of_nat (length (CudaBufferWriterImpl.host_buffer_data_ w))
   = CudaBufferWriterImpl.buffer_size_ w).

(** The bound on the staged count that the spec states for a writer with a
    staging capacity. *)
Definition staging_bounded (w : CudaBufferWriterImpl.t) : Prop :=
  0 < CudaBufferWriterImpl.buffer_size_ w →
  0 <= CudaBufferWriterImpl.buffer_position_ w
  < CudaBufferWriterImpl.buffer_size_ w.

(** The spec's account of [WriteAt]: the public [Seek], which flushes what is
    staged, followed by [Write]. *)
Definition SeekThenWrite (w : CudaBufferWriterImpl.t) (ctx : CudaContext.t)
           (position : Z) (data : list byte) : Result CudaBufferWriterImpl.t :=
  RETURN_NOT_OK (w, ctx) := CudaBufferWriter.Seek w ctx position in
  CudaBufferWriter.Write w ctx data.

(** The one call a writer makes outside [SetBufferSize]: a transfer to the
    device. *)
Definition writer_driver_call (c : DriverCall) : bool :=
  match c with
  | Call_CopyHostToDevice _ _ => true
  | _ => false
  end.

(** What a call of the writer other than [SetBufferSize] may change in the
    context: it adds transfers to the record and keeps the set of mapped
    addresses. *)
Definition writer_step (ctx ctx' : CudaContext.t) : Prop :=
  ∃ new,
    CudaContext.driver_calls ctx' = CudaContext.driver_calls ctx ++ new ∧
    forallb writer_driver_call new = true ∧
    dom (CudaContext.device_memory ctx') = dom (CudaContext.device_memory ctx).

(** What a call of the writer other than [SetBufferSize] may change: it
    keeps the buffer the writer was built on, and changes the context as
    stated above. *)
Definition writer_frame (w : CudaBufferWriterImpl.t) (ctx : CudaContext.t)
           (r : Result CudaBufferWriterImpl.t) : Prop :=
  CudaBufferWriterImpl.buffer_ r.1.2 = CudaBufferWriterImpl.buffer_ w ∧
  CudaBufferWriterImpl.mutable_data_ r.1.2
  = CudaBufferWriterImpl.mutable_data_ w ∧
  CudaBufferWriterImpl.size_ r.1.2 = CudaBufferWriterImpl.size_ w ∧
  writer_step ctx r.2.

(** ** Sample inputs *)

(** A context whose device memory is one zeroed allocation of 8 bytes at
    address 100, a buffer that owns it, and a pool of host memory. *)
Definition sample_context : CudaContext.t :=
  {| CudaContext.device_memory := store ∅ 100 (replicate 8 x00);
     CudaContext.driver_calls := [] |}.

Definition sample_buffer : CudaBuffer.t := CudaBuffer.CudaBuffer 100 8 true false.

Definition sample_imported_buffer : CudaBuffer.t :=
  CudaBuffer.CudaBuffer 100 8 true true.

Definition sample_pool : CudaIpcMemHandle.MemoryPool :=
  {| CudaIpcMemHandle.free_bytes := replicate 100 xff |}.

Definition sample_handle : CudaIpcMemHandle.t :=
  CudaIpcMemHandle.CudaIpcMemHandle (CudaContext.driver_token 100).

(** The writer over [sample_buffer], as its constructor builds it. *)
Definition sample_writer : CudaBufferWriterImpl.t :=
  {| CudaBufferWriterImpl.buffer_ := sample_buffer;
     CudaBufferWriterImpl.mutable_data_ := 100;
     CudaBufferWriterImpl.size_ := 8;
     CudaBufferWriterImpl.position_ := 0;
     CudaBufferWriterImpl.buffer_size_ := 0;
     CudaBufferWriterImpl.buffer_position_ := 0;
     CudaBufferWriterImpl.host_buffer_data_ := [] |}.

(** The same writer after [SetBufferSize(4)] and [Write] of the byte 7: the
    byte is staged, the cursor is at 1. *)
Definition sample_staged_writer : CudaBufferWriterImpl.t :=
  {| CudaBufferWriterImpl.buffer_ := sample_buffer;
     CudaBufferWriterImpl.mutable_data_ := 100;
     CudaBufferWriterImpl.size_ := 8;
     CudaBufferWriterImpl.position_ := 1;
     CudaBufferWriterImpl.buffer_size_ := 4;
     CudaBufferWriterImpl.buffer_position_ := 1;
     CudaBufferWriterImpl.host_buffer_data_ := [x07; x00; x00; x00] |}.

(** The same allocation holding the bytes 1 to 8, and a reader over
    [sample_buffer]. *)
Definition sample_filled_context : CudaContext.t :=
  {| CudaContext.device_memory :=
       store ∅ 100 [x01; x02; x03; x04; x05; x06; x07; x08];
     CudaContext.driver_calls := [] |}.

Definition sample_reader : CudaBufferReader.t :=
  CudaBufferReader.CudaBufferReader sample_buffer.

(** * Properties *)

(** ** Device memory *)

Section DeviceMemory.

Implicit Types (m : gmap Z byte) (a i : Z) (n : nat) (bs : list byte).

Lemma range_mapped_spec m a n :
  range_mapped m a n = true ↔
  ∀ i, a <= i < a + Z.of_nat n → is_Some (m !! i).
Proof.
  revert a. induction n as [|n IH]; intros a; simpl.
  - split; [intros _ i Hi; lia | done].
  - rewrite andb_true_iff, bool_decide_eq_true, IH. split.
    + intros [Ha Hrest] i Hi.
      destruct (decide (i = a)) as [->|]; [done | apply Hrest; lia].
    + intros H. split; [apply H; lia | intros i Hi; apply H; lia].
Qed.

Lemma range_mapped_app m a n1 n2 :
  range_mapped m a (n1 + n2) =
  range_mapped m a n1 && range_mapped m (a + Z.of_nat n1) n2.
Proof.
  revert a. induction n1 as [|n1 IH]; intros a; simpl.
  - by rewrite Z.add_0_r.
  - rewrite IH, andb_assoc. f_equal. f_equal. lia.
Qed.

Lemma store_lookup_lt m a bs i : i < a → store m a bs !! i = m !! i.
Proof.
  revert m a. induction bs as [|b bs IH]; intros m a Hi; simpl; [done|].
  rewrite IH by lia. apply lookup_insert_ne. lia.
Qed.

Lemma store_lookup_ge m a bs i :
  a + Z.of_nat (length bs) <= i → store m a bs !! i = m !! i.
Proof.
  revert m a. induction bs as [|b bs IH]; intros m a Hi; simpl in *; [done|].
  rewrite IH by lia. apply lookup_insert_ne. lia.
Qed.

Lemma store_lookup_in m a bs i :
  a <= i < a + Z.of_nat (length bs) →
  store m a bs !! i = bs !! Z.to_nat (i - a).
Proof.
  revert m a. induction bs as [|b bs IH]; intros m a Hi; simpl in *; [lia|].
  destruct (decide (i = a)) as [->|Hne].
  - rewrite store_lookup_lt by lia. rewrite lookup_insert_eq.
    by rewrite Z.sub_diag.
  - rewrite IH by lia.
    replace (Z.to_nat (i - a)) with (S (Z.to_nat (i - (a + 1)))) by lia.
    done.
Qed.

Lemma store_is_Some m a bs i :
  is_Some (store m a bs !! i) ↔
  is_Some (m !! i) ∨ a <= i < a + Z.of_nat (length bs).
Proof.
  destruct (decide (a <= i < a + Z.of_nat (length bs))) as [Hin|Hout].
  - rewrite store_lookup_in by done. split; [by right|intros _].
    apply lookup_lt_is_Some. lia.
  - assert (i < a ∨ a + Z.of_nat (length bs) <= i) as [?|?] by lia.
    + rewrite store_lookup_lt by done.
      split; [by left | intros [?|?]; [done | lia]].
    + rewrite store_lookup_ge by done.
      split; [by left | intros [?|?]; [done | lia]].
Qed.

(** A transfer into mapped memory maps nothing new. *)
Lemma range_mapped_store m a bs a' n :
  range_mapped m a (length bs) = true →
  range_mapped (store m a bs) a' n = range_mapped m a' n.
Proof.
  intros Hm. apply Bool.eq_iff_eq_true. rewrite !range_mapped_spec.
  rewrite range_mapped_spec in Hm.
  split; intros H i Hi; specialize (H i Hi).
  - apply store_is_Some in H as [H|H]; [done | by apply Hm].
  - apply store_is_Some. by left.
Qed.

Lemma store_app m a xs ys :
  store m a (xs ++ ys) = store (store m a xs) (a + Z.of_nat (length xs)) ys.
Proof.
  revert m a. induction xs as [|x xs IH]; intros m a; simpl.
  - by rewrite Z.add_0_r.
  - rewrite IH. f_equal. lia.
Qed.

Lemma load_store m a bs : load (store m a bs) a (length bs) = Some bs.
Proof.
  revert m a. induction bs as [|b bs IH]; intros m a; simpl; [done|].
  rewrite store_lookup_lt by lia. rewrite lookup_insert_eq.
  by rewrite IH.
Qed.

(** Bytes written outside a range do not change what is read from it. *)
Lemma load_store_disjoint m a bs a' n :
  a' + Z.of_nat n <= a ∨ a + Z.of_nat (length bs) <= a' →
  load (store m a bs) a' n = load m a' n.
Proof.
  revert a'. induction n as [|n IH]; intros a' Hd; simpl; [done|].
  rewrite IH by lia.
  destruct Hd as [Hd|Hd].
  - by rewrite store_lookup_lt by lia.
  - by rewrite store_lookup_ge by lia.
Qed.

End DeviceMemory.

(** ** Transfers *)

Lemma CopyHostToDevice_mapped ctx dst src :
  range_mapped (CudaContext.device_memory ctx) dst (length src) = true →
  CudaContext.CopyHostToDevice ctx dst src =
  (OK, {| CudaContext.device_memory :=
            store (CudaContext.device_memory ctx) dst src;
          CudaContext.driver_calls :=
            CudaContext.driver_calls ctx ++ [Call_CopyHostToDevice dst src] |}).
Proof. intros H. unfold CudaContext.CopyHostToDevice. by rewrite H. Qed.

Lemma CopyHostToDevice_unmapped ctx dst src :
  range_mapped (CudaContext.device_memory ctx) dst (length src) = false →
  CudaContext.CopyHostToDevice ctx dst src =
  (CudaContext.driver_error,
   CudaContext.record_call (Call_CopyHostToDevice dst src) ctx).
Proof. intros H. unfold CudaContext.CopyHostToDevice. by rewrite H. Qed.

Lemma CopyHostToDevice_status ctx dst src :
  (CudaContext.CopyHostToDevice ctx dst src).1 = OK ↔
  range_mapped (CudaContext.device_memory ctx) dst (length src) = true.
Proof.
  unfold CudaContext.CopyHostToDevice.
  destruct (range_mapped _ _ _); simpl; split; done.
Qed.

(** ** The writer *)

Section Writer.

Import CudaBufferWriterImpl.

Implicit Types (w : CudaBufferWriterImpl.t) (ctx : CudaContext.t)
         (data : list byte).

Lemma Flush_idle w ctx :
  buffer_size_ w <= 0 ∨ buffer_position_ w <= 0 →
  Flush w ctx = (OK, w, ctx).
Proof.
  intros H. unfold Flush.
  destruct (Z.ltb_spec 0 (buffer_size_ w)),
           (Z.ltb_spec 0 (buffer_position_ w)); simpl; try done; lia.
Qed.

Lemma Flush_pending w ctx :
  0 < buffer_size_ w → 0 < buffer_position_ w →
  Flush w ctx =
  match CudaContext.CopyHostToDevice ctx
          (mutable_data_ w + position_ w - buffer_position_ w) (staged w)
  with
  | (OK, ctx') => (OK, set_buffer_position_ 0 w, ctx')
  | (failed, ctx') => (failed, w, ctx')
  end.
Proof.
  intros Hs Hp. unfold Flush, context_call, staged.
  destruct (Z.ltb_spec 0 (buffer_size_ w)); [|lia].
  destruct (Z.ltb_spec 0 (buffer_position_ w)); [|lia]. simpl.
  by destruct (CudaContext.CopyHostToDevice _ _ _) as [[] ?].
Qed.

(** What a flush leaves unchanged, whatever its status. *)
Lemma Flush_frame w ctx :
  let w' := (Flush w ctx).1.2 in
  buffer_ w' = buffer_ w ∧ mutable_data_ w' = mutable_data_ w ∧
  size_ w' = size_ w ∧ position_ w' = position_ w ∧
  buffer_size_ w' = buffer_size_ w ∧
  host_buffer_data_ w' = host_buffer_data_ w ∧
  (buffer_position_ w' = buffer_position_ w ∨ buffer_position_ w' = 0).
Proof.
  unfold Flush, context_call.
  destruct (_ && _); simpl; [|tauto].
  destruct (CudaContext.CopyHostToDevice _ _ _) as [[] ?]; simpl; tauto.
Qed.

Lemma Flush_ok_buffer_position w ctx w' ctx' :
  Flush w ctx = (OK, w', ctx') →
  0 < buffer_size_ w → buffer_position_ w' <= 0.
Proof.
  intros H Hs.
  destruct (Z.lt_ge_cases 0 (buffer_position_ w)) as [Hp|Hp].
  - rewrite Flush_pending in H by done.
    destruct (CudaContext.CopyHostToDevice _ _ _) as [[] ?];
      simplify_eq; simpl; lia.
  - rewrite Flush_idle in H by lia. simplify_eq. lia.
Qed.

Lemma Write_empty w ctx : Write w ctx [] = (OK, w, ctx).
Proof. done. Qed.

Lemma Write_unbuffered w ctx data :
  buffer_size_ w <= 0 → data ≠ [] →
  Write w ctx data =
  match CudaContext.CopyHostToDevice ctx (mutable_data_ w + position_ w) data
  with
  | (OK, ctx') =>
      (OK, set_position_ (position_ w + Z.of_nat (length data)) w, ctx')
  | (failed, ctx') => (failed, w, ctx')
  end.
Proof.
  intros Hs Hd. unfold Write, context_call.
  destruct (Z.eqb_spec (Z.of_nat (length data)) 0) as [H0|_];
    [by destruct data|].
  destruct (Z.ltb_spec 0 (buffer_size_ w)); [lia|].
  by destruct (CudaContext.CopyHostToDevice _ _ _) as [[] ?].
Qed.

Lemma Write_staged w ctx data :
  0 < buffer_size_ w → data ≠ [] →
  Z.of_nat (length data) + buffer_position_ w < buffer_size_ w →
  Write w ctx data =
  (OK,
   set_position_ (position_ w + Z.of_nat (length data))
     (set_buffer_position_ (buffer_position_ w + Z.of_nat (length data))
        (set_host_buffer_data_
           (memcpy (host_buffer_data_ w) (Z.to_nat (buffer_position_ w))
                   data (length data)) w)),
   ctx).
Proof.
  intros Hs Hd Hlt. unfold Write.
  destruct (Z.eqb_spec (Z.of_nat (length data)) 0) as [H0|_];
    [by destruct data|].
  destruct (Z.ltb_spec 0 (buffer_size_ w)); [|lia].
  destruct (Z.leb_spec (buffer_size_ w)
              (Z.of_nat (length data) + buffer_position_ w)); [lia|done].
Qed.

Lemma Write_direct w ctx data :
  0 < buffer_size_ w → data ≠ [] →
  buffer_size_ w <= Z.of_nat (length data) + buffer_position_ w →
  Write w ctx data =
  match Flush w ctx with
  | (OK, w1, ctx1) =>
      match CudaContext.CopyHostToDevice ctx1
              (mutable_data_ w1 + position_ w1) data
      with
      | (OK, ctx2) =>
          (OK, set_position_ (position_ w1 + Z.of_nat (length data)) w1,
           ctx2)
      | (failed, ctx2) => (failed, w1, ctx2)
      end
  | failed => failed
  end.
Proof.
  intros Hs Hd Hge. unfold Write, context_call.
  destruct (Z.eqb_spec (Z.of_nat (length data)) 0) as [H0|_];
    [by destruct data|].
  destruct (Z.ltb_spec 0 (buffer_size_ w)); [|lia].
  destruct (Z.leb_spec (buffer_size_ w)
              (Z.of_nat (length data) + buffer_position_ w)); [|lia].
  destruct (Flush w ctx) as [[[] w1] ctx1]; try done.
  by destruct (CudaContext.CopyHostToDevice _ _ _) as [[] ?].
Qed.

(** *** The staging fields *)

Lemma memcpy_length (dst src : list byte) (off : nat) :
  (off + length src <= length dst)%nat →
  length (memcpy dst off src (length src)) = length dst.
Proof.
  intros H. unfold memcpy.
  rewrite !length_app, !length_take, length_drop. lia.
Qed.

Lemma memcpy_take (dst src : list byte) (off : nat) :
  (off <= length dst)%nat →
  take (off + length src) (memcpy dst off src (length src))
  = take off dst ++ src.
Proof.
  intros H. unfold memcpy. rewrite firstn_all, app_assoc.
  rewrite take_app_length'; [done|].
  rewrite length_app, length_take. lia.
Qed.

Lemma staging_wf_new buffer w :
  CudaBufferWriter.CudaBufferWriter buffer = Completed w → staging_wf w.
Proof.
  unfold CudaBufferWriter.CudaBufferWriter, CudaBufferWriterImpl.
  destruct (CudaBuffer.is_mutable_ buffer); [|done].
  intros [= <-]. unfold staging_wf; simpl. lia.
Qed.

Lemma staging_wf_set_position_ w p :
  staging_wf w → staging_wf (set_position_ p w).
Proof. done. Qed.

Lemma staging_wf_Flush w ctx : staging_wf w → staging_wf (Flush w ctx).1.2.
Proof.
  intros (H0 & Hlt & Hlen).
  destruct (Flush_frame w ctx) as (_ & _ & _ & _ & Hs & Hh & Hp).
  unfold staging_wf. rewrite Hs, Hh. destruct Hp as [-> | ->]; [done|].
  split; [lia|]. split; [by left|done].
Qed.

Lemma staging_wf_Seek w ctx p : staging_wf w → staging_wf (Seek w ctx p).1.2.
Proof. intros H. unfold Seek. by destruct (_ || _). Qed.

Lemma staging_wf_Write w ctx data :
  staging_wf w → staging_wf (Write w ctx data).1.2.
Proof.
  intros Hwf. destruct (decide (data = [])) as [->|Hd]; [done|].
  destruct (Z.lt_ge_cases 0 (buffer_size_ w)) as [Hs|Hs].
  - destruct (Z.lt_ge_cases (Z.of_nat (length data) + buffer_position_ w)
                (buffer_size_ w)) as [Hlt|Hge].
    + rewrite Write_staged by done.
      destruct Hwf as (H0 & _ & Hlen). specialize (Hlen Hs).
      unfold staging_wf; cbn [fst snd buffer_position_ buffer_size_
        host_buffer_data_ set_position_ set_buffer_position_
        set_host_buffer_data_].
      split; [lia|]. split; [right; lia|].
      intros _. rewrite memcpy_length; [done|lia].
    + rewrite Write_direct by done.
      pose proof (staging_wf_Flush w ctx Hwf) as Hf.
      destruct (Flush w ctx) as [[[] w1] ctx1]; try done.
      by destruct (CudaContext.CopyHostToDevice _ _ _) as [[] ?].
  - rewrite Write_unbuffered by done.
    by destruct (CudaContext.CopyHostToDevice _ _ _) as [[] ?].
Qed.

Lemma staging_wf_WriteAt w ctx p data :
  staging_wf w → staging_wf (WriteAt w ctx p data).1.2.
Proof.
  intros Hwf. unfold WriteAt.
  pose proof (staging_wf_Seek w ctx p Hwf) as Hs.
  destruct (Seek w ctx p) as [[[] w1] ctx1]; try done.
  by apply staging_wf_Write.
Qed.

Lemma staging_wf_SetBufferSize w ctx n :
  staging_wf w → staging_wf (SetBufferSize w ctx n).1.2.
Proof.
  intros Hwf. unfold SetBufferSize.
  assert (∃ st w1 ctx1,
    (if 0 <? buffer_position_ w then Flush w ctx else (OK, w, ctx))
    = (st, w1, ctx1) ∧ staging_wf w1 ∧
    (st = OK → buffer_position_ w1 = 0)) as (st & w1 & ctx1 & -> & Hwf1 & H0).
  { destruct (Z.ltb_spec 0 (buffer_position_ w)) as [Hp|Hp].
    - pose proof (staging_wf_Flush w ctx Hwf) as Hf.
      destruct (Flush w ctx) as [[st w1] ctx1] eqn:HF.
      exists st, w1, ctx1. split; [done|]. split; [done|]. intros ->.
      destruct Hwf as (_ & [?|?] & _); [lia|].
      apply Flush_ok_buffer_position in HF; [|lia].
      destruct Hf as (? & _). simpl in *. lia.
    - exists OK, w, ctx. split; [done|]. split; [done|]. intros _.
      destruct Hwf as (? & _). lia. }
  destruct st; try done. specialize (H0 eq_refl).
  unfold AllocateCudaHostBuffer, CudaContext.AllocateHost.
  destruct (Z.leb_spec 0 n); [|done].
  unfold staging_wf; simpl. rewrite H0. split; [done|]. split; [by left|].
  intros _. rewrite length_replicate. lia.
Qed.

Lemma staging_wf_call c w ctx : staging_wf w → staging_wf (call c w ctx).1.2.
Proof.
  intros Hwf. destruct c; simpl.
  - by apply staging_wf_Write.
  - by apply staging_wf_Flush.
  - by apply staging_wf_SetBufferSize.
  - unfold CudaBufferWriter.Seek, CudaBufferWriter.Flush, buffer_position.
    destruct (0 <? buffer_position_ w).
    + pose proof (staging_wf_Flush w ctx Hwf) as Hf.
      destruct (Flush w ctx) as [[[] w1] ctx1]; try done.
      by apply staging_wf_Seek.
    + by apply staging_wf_Seek.
  - by apply staging_wf_WriteAt.
  - by apply staging_wf_Flush.
Qed.

Lemma reachable_staging_wf w : reachable w → staging_wf w.
Proof.
  induction 1 as [buffer w Hnew | c w ctx _ IH].
  - by eapply staging_wf_new.
  - by apply staging_wf_call.
Qed.

(** *** Buffered and unbuffered runs *)

Lemma staged_length w :
  staging_wf w → 0 < buffer_size_ w →
  Z.of_nat (length (staged w)) = buffer_position_ w.
Proof.
  intros (H0 & Hlt & Hlen) Hs. specialize (Hlen Hs).
  unfold staged. rewrite length_take. lia.
Qed.

Lemma set_buffer_position__id w :
  set_buffer_position_ (buffer_position_ w) w = w.
Proof. by destruct w. Qed.

(** A flush succeeds exactly when the range of the staged bytes is mapped,
    and then it has stored them there and emptied the staging area. *)
Lemma Flush_effect w ctx :
  staging_wf w → 0 < buffer_size_ w →
  let a := mutable_data_ w + position_ w - buffer_position_ w in
  ((Flush w ctx).1.1 = OK ↔
   range_mapped (CudaContext.device_memory ctx) a (length (staged w)) = true)
  ∧ ((Flush w ctx).1.1 = OK →
     (Flush w ctx).1.2 = set_buffer_position_ 0 w ∧
     CudaContext.device_memory (Flush w ctx).2
     = store (CudaContext.device_memory ctx) a (staged w)).
Proof.
  intros Hwf Hs a. pose proof Hwf as (H0 & _ & _).
  destruct (Z.lt_ge_cases 0 (buffer_position_ w)) as [Hp|Hp].
  - rewrite Flush_pending by done. fold a.
    destruct (range_mapped _ a _) eqn:Hm.
    + rewrite CopyHostToDevice_mapped by done. done.
    + rewrite CopyHostToDevice_unmapped by done. done.
  - assert (buffer_position_ w = 0) as Hz by lia.
    rewrite Flush_idle by lia.
    assert (staged w = []) as -> by (unfold staged; by rewrite Hz).
    simpl. split; [done|]. intros _. split; [|done].
    by rewrite <- Hz, set_buffer_position__id.
Qed.

Lemma WriteAllThenFlush_nil w ctx :
  WriteAllThenFlush w ctx [] = Flush w ctx.
Proof. done. Qed.

Lemma WriteAllThenFlush_cons w ctx data chunks :
  WriteAllThenFlush w ctx (data :: chunks) =
  match Write w ctx data with
  | (OK, w', ctx') => WriteAllThenFlush w' ctx' chunks
  | failed => failed
  end.
Proof.
  unfold WriteAllThenFlush; simpl. unfold CudaBufferWriter.Write.
  by destruct (Write w ctx data) as [[[] w'] ctx'].
Qed.

(** Without staging, a run succeeds exactly when the range of all its
    bytes is mapped, and then it has stored them in order. *)
Lemma WriteAllThenFlush_unbuffered chunks : ∀ w ctx,
  buffer_size_ w <= 0 →
  let a := mutable_data_ w + position_ w in
  let r := WriteAllThenFlush w ctx chunks in
  (r.1.1 = OK ↔
   range_mapped (CudaContext.device_memory ctx) a (length (concat chunks))
   = true)
  ∧ (r.1.1 = OK →
     CudaContext.device_memory r.2
     = store (CudaContext.device_memory ctx) a (concat chunks) ∧
     position_ r.1.2 = position_ w + Z.of_nat (length (concat chunks))).
Proof.
  induction chunks as [|data chunks IH]; intros w ctx Hs; cbv zeta.
  - rewrite WriteAllThenFlush_nil, Flush_idle by lia. simpl.
    split; [done|]. intros _. split; [done|lia].
  - rewrite WriteAllThenFlush_cons.
    destruct (decide (data = [])) as [->|Hd].
    { rewrite Write_empty. by apply IH. }
    rewrite Write_unbuffered by done.
    cbn [concat]. rewrite length_app, range_mapped_app, store_app.
    destruct (range_mapped _ _ (length data)) eqn:Hm.
    + rewrite CopyHostToDevice_mapped by done.
      match goal with |- context [WriteAllThenFlush ?w' ?c' chunks] =>
        specialize (IH w' c') end.
      cbn [buffer_size_ set_position_ mutable_data_ position_
           CudaContext.device_memory] in IH.
      rewrite range_mapped_store in IH by done.
      rewrite Z.add_assoc in IH.
      destruct (IH Hs) as [IH1 IH2]. rewrite andb_true_l.
      split; [done|]. intros Hok. destruct (IH2 Hok) as [-> ->].
      split; [done|lia].
    + rewrite CopyHostToDevice_unmapped by done. simpl. done.
Qed.

(** With staging, the run followed by a flush succeeds exactly when the
    range of the bytes still staged and of all the new bytes is mapped,
    and then it has stored them in order. *)
Lemma WriteAllThenFlush_buffered chunks : ∀ w ctx,
  staging_wf w → 0 < buffer_size_ w →
  let a := mutable_data_ w + position_ w - buffer_position_ w in
  let bytes := staged w ++ concat chunks in
  let r := WriteAllThenFlush w ctx chunks in
  (r.1.1 = OK ↔
   range_mapped (CudaContext.device_memory ctx) a (length bytes) = true)
  ∧ (r.1.1 = OK →
     CudaContext.device_memory r.2
     = store (CudaContext.device_memory ctx) a bytes ∧
     position_ r.1.2 = position_ w + Z.of_nat (length (concat chunks))).
Proof.
  induction chunks as [|data chunks IH]; intros w ctx Hwf Hs; cbv zeta.
  - rewrite WriteAllThenFlush_nil. cbn [concat]. rewrite app_nil_r.
    destruct (Flush_effect w ctx Hwf Hs) as [H1 H2].
    split; [done|]. intros Hok. destruct (H2 Hok) as [-> ->].
    split; [done|simpl; lia].
  - rewrite WriteAllThenFlush_cons.
    destruct (decide (data = [])) as [->|Hd].
    { rewrite Write_empty. by apply IH. }
    pose proof (staged_length w Hwf Hs) as Hlen.
    pose proof (staging_wf_Write w ctx data Hwf) as Hwf'.
    cbn [concat].
    destruct (Z.lt_ge_cases (Z.of_nat (length data) + buffer_position_ w)
                (buffer_size_ w)) as [Hlt|Hge].
    + (* the bytes are staged *)
      rewrite Write_staged in Hwf' |- * by done.
      match goal with |- context [WriteAllThenFlush ?w' ?c' chunks] =>
        specialize (IH w' c' Hwf' Hs); set (w1 := w') in * end.
      assert (staged w1 = staged w ++ data) as Hst.
      { unfold staged, w1; simpl.
        destruct Hwf as (H0 & _ & Hh). specialize (Hh Hs).
        replace (Z.to_nat (buffer_position_ w + Z.of_nat (length data)))
          with (Z.to_nat (buffer_position_ w) + length data)%nat by lia.
        apply memcpy_take. lia. }
      cbv zeta in IH. rewrite Hst, <- app_assoc in IH.
      replace (mutable_data_ w1 + position_ w1 - buffer_position_ w1)
        with (mutable_data_ w + position_ w - buffer_position_ w) in IH
        by (unfold w1; simpl; lia).
      destruct IH as [IH1 IH2]. split; [done|].
      intros Hok. destruct (IH2 Hok) as [-> ->].
      split; [done|]. unfold w1; simpl. rewrite length_app. lia.
    + (* the staged bytes are flushed and the new ones sent directly *)
      rewrite Write_direct in Hwf' |- * by done.
      destruct (Flush_effect w ctx Hwf Hs) as [HF1 HF2].
      rewrite length_app, range_mapped_app, store_app, Hlen.
      replace (mutable_data_ w + position_ w - buffer_position_ w
               + buffer_position_ w)
        with (mutable_data_ w + position_ w) by lia.
      destruct (Flush w ctx) as [[stf w1] ctx1]; simpl in HF1, HF2.
      destruct (range_mapped _ _ (length (staged w))) eqn:Hm1.
      2:{ destruct stf; simpl; try done.
          by destruct HF1 as [HF1 _]; specialize (HF1 eq_refl). }
      destruct HF1 as [_ HF1]. specialize (HF1 eq_refl). subst stf.
      destruct (HF2 eq_refl) as [-> Hmem1]. clear HF2.
      cbn [mutable_data_ position_ set_buffer_position_] in Hwf' |- *.
      rewrite andb_true_l, length_app, range_mapped_app, store_app.
      assert (range_mapped (CudaContext.device_memory ctx1)
                (mutable_data_ w + position_ w) (length data)
              = range_mapped (CudaContext.device_memory ctx)
                  (mutable_data_ w + position_ w) (length data)) as Hrm.
      { rewrite Hmem1. by apply range_mapped_store. }
      destruct (range_mapped (CudaContext.device_memory ctx) _
                  (length data)) eqn:Hm2.
      2:{ rewrite CopyHostToDevice_unmapped by done. simpl. done. }
      rewrite CopyHostToDevice_mapped in Hwf' |- * by done.
      match goal with |- context [WriteAllThenFlush ?w' ?c' chunks] =>
        specialize (IH w' c' Hwf' Hs); set (w2 := w') in * end.
      assert (staged w2 = []) as Hst by done.
      cbv zeta in IH. rewrite Hst in IH.
      cbn [mutable_data_ position_ buffer_position_ set_position_
           set_buffer_position_ w2 CudaContext.device_memory app] in IH.
      rewrite Hmem1, Z.sub_0_r, !range_mapped_store in IH by
        (try done; by rewrite range_mapped_store).
      rewrite Z.add_assoc in IH. rewrite Hmem1.
      destruct IH as [IH1 IH2]. rewrite andb_true_l. split; [done|].
      intros Hok. destruct (IH2 Hok) as [-> ->].
      split; [done|]. unfold w2; simpl. lia.
Qed.

End Writer.

(** ** Device buffers and IPC handles *)

Section Buffer.

Import CudaBuffer.

Implicit Types (b : CudaBuffer.t) (ctx : CudaContext.t).

(** What one call of [Close] does: it dispatches on the ownership flags.  A
    buffer that does not
    own its data, and so every slice, makes no call at all and returns OK.
    An owning buffer that is not an IPC mapping makes exactly the call
    [Free(mutable_data_, size_)] and returns its status.  An owning IPC
    mapping makes exactly the call [cuIpcCloseMemHandle(mutable_data_)];
    no [Free] is issued and the device memory is as before. *)
Theorem Close_dispatch b ctx :
  (own_data_ b = false → Close b ctx = (OK, ctx)) ∧
  (∀ parent offset size,
     Close (CudaBuffer_slice parent offset size) ctx = (OK, ctx)) ∧
  (own_data_ b = true → is_ipc_ b = false →
     Close b ctx = CudaContext.Free ctx (mutable_data_ b) (size_ b) ∧
     CudaContext.driver_calls (Close b ctx).2
     = CudaContext.driver_calls ctx
         ++ [Call_Free (mutable_data_ b) (size_ b)]) ∧
  (own_data_ b = true → is_ipc_ b = true →
     CudaContext.driver_calls (Close b ctx).2
     = CudaContext.driver_calls ctx
         ++ [Call_IpcCloseMemHandle (mutable_data_ b)] ∧
     CudaContext.device_memory (Close b ctx).2
     = CudaContext.device_memory ctx).
Proof.
  unfold Close. split; [by intros ->|]. split; [done|].
  split; intros -> ->.
  - split; [done|]. unfold CudaContext.Free. by destruct (_ && _).
  - unfold CudaContext.cuIpcCloseMemHandle. by destruct (bool_decide _).
Qed.

Lemma Close_dispatch_witness :
  Close (CudaBuffer_slice sample_buffer 2 4) sample_context
  = (OK, sample_context) ∧
  CudaContext.driver_calls (Close sample_buffer sample_context).2
  = [Call_Free 100 8] ∧
  CudaContext.driver_calls (Close sample_imported_buffer sample_context).2
  = [Call_IpcCloseMemHandle 100].
Proof.
  split; [|split].
  - apply (Close_dispatch sample_buffer sample_context).
  - apply (Close_dispatch sample_buffer sample_context); reflexivity.
  - apply (Close_dispatch sample_imported_buffer sample_context);
      reflexivity.
Defined.


(** C9: [CopyFromHost] asserts [nbytes <= size_ - position].  When the
    range fits, the assertion passes and the call is exactly the transfer
    of the [nbytes] bytes to [mutable_data_ + position]; when it does not,
    the assertion aborts the call and no status is returned. *)
Theorem CopyFromHost_precondition b ctx position (data : list byte) :
  (position + Z.of_nat (length data) <= size_ b →
     CopyFromHost b ctx position data
     = Completed (CudaContext.CopyHostToDevice ctx
                    (mutable_data_ b + position) data) ∧
     CudaContext.driver_calls
       (CudaContext.CopyHostToDevice ctx (mutable_data_ b + position) data).2
     = CudaContext.driver_calls ctx
         ++ [Call_CopyHostToDevice (mutable_data_ b + position) data]) ∧
  (size_ b < position + Z.of_nat (length data) →
     CopyFromHost b ctx position data
     = Aborted "Copy would overflow buffer").
Proof.
  unfold CopyFromHost. split; intros H.
  - destruct (Z.leb_spec (Z.of_nat (length data)) (size_ b - position));
      [|lia].
    split; [done|]. unfold CudaContext.CopyHostToDevice.
    by destruct (range_mapped _ _ _).
  - by destruct (Z.leb_spec (Z.of_nat (length data)) (size_ b - position));
      [lia|].
Qed.

Lemma CopyFromHost_precondition_witness :
  CopyFromHost sample_buffer sample_context 6 [x01; x02]
  = Completed (CudaContext.CopyHostToDevice sample_context 106 [x01; x02]) ∧
  CopyFromHost sample_buffer sample_context 7 [x01; x02]
  = Aborted "Copy would overflow buffer".
Proof.
  split.
  - apply (CopyFromHost_precondition sample_buffer sample_context 6
             [x01; x02]). simpl. lia.
  - apply (CopyFromHost_precondition sample_buffer sample_context 7
             [x01; x02]). simpl. lia.
Defined.

(** C8: after a successful [ExportForIpc] the buffer no longer owns its
    data, so a later [Close] of it, in whatever state the context then is,
    makes no call and returns OK; a failed [ExportForIpc] leaves the buffer,
    and with it the behaviour of [Close], as it was. *)
Theorem ExportForIpc_releases_ownership b ctx st handle b' ctx' :
  ExportForIpc b ctx = (st, handle, b', ctx') →
  (st = OK →
     own_data_ b' = false ∧ ∀ ctx'', Close b' ctx'' = (OK, ctx'')) ∧
  (st ≠ OK → b' = b ∧ own_data_ b' = own_data_ b).
Proof.
  unfold ExportForIpc. intros H.
  destruct (is_ipc_ b).
  { simplify_eq. split; [done|]. by intros _. }
  destruct (CudaContext.ExportIpcBuffer ctx (mutable_data_ b))
    as [[[] h] c]; simplify_eq; (split; [|by intros ?]); try done.
Qed.

Lemma ExportForIpc_releases_ownership_witness :
  (own_data_ (set_own_data_ false sample_buffer) = false ∧
   ∀ ctx'', Close (set_own_data_ false sample_buffer) ctx'' = (OK, ctx'')) ∧
  (sample_imported_buffer = sample_imported_buffer ∧
   own_data_ sample_imported_buffer = own_data_ sample_imported_buffer).
Proof.
  split.
  - eapply (ExportForIpc_releases_ownership sample_buffer sample_context);
      reflexivity.
  - eapply (ExportForIpc_releases_ownership sample_imported_buffer
              sample_context); [reflexivity|discriminate].
Defined.

(** C2, the code at the failing input: the first export of [sample_buffer]
    succeeds and leaves [is_ipc_] unset, since an export records itself
    only by clearing [own_data_]; the guard of a second export of the buffer
    the first one left therefore passes, the context is asked for a handle
    again and the call returns OK instead of the "already exported" error. *)
Theorem ExportForIpc_twice_succeeds :
  let first := ExportForIpc sample_buffer sample_context in
  let second := ExportForIpc first.1.2 first.2 in
  first.1.1.1 = OK ∧
  own_data_ first.1.2 = false ∧ is_ipc_ first.1.2 = false ∧
  CudaContext.driver_calls first.2 = [Call_ExportIpcBuffer 100] ∧
  second.1.1.1 = OK ∧
  second.1.1.2 = first.1.1.2 ∧
  second.1.1.1 ≠ Invalid "Buffer has already been exported for IPC" ∧
  CudaContext.driver_calls second.2
  = [Call_ExportIpcBuffer 100; Call_ExportIpcBuffer 100].
Proof. vm_compute. repeat split; discriminate. Qed.

End Buffer.

Section Handle.

Import CudaIpcMemHandle.

(** C7: for a handle [h] (a token of [kHandleSize] bytes) and a pool that
    can serve the request, [Serialize] takes a fresh buffer of exactly
    [kHandleSize] bytes from the pool and returns it holding the bytes of
    the token, and [FromBuffer] on these bytes gives back [h]. *)
Theorem Serialize_FromBuffer_roundtrip (h : CudaIpcMemHandle.t)
        (pool : MemoryPool) :
  length (ipc_handle h) = kHandleSize →
  (kHandleSize <= length (free_bytes pool))%nat →
  Serialize h pool
  = (OK, Some (ipc_handle h),
     {| free_bytes := drop kHandleSize (free_bytes pool) |}) ∧
  FromBuffer (ipc_handle h) = (OK, h) ∧
  ipc_handle (FromBuffer (ipc_handle h)).2 = ipc_handle h.
Proof.
  intros Hh Hp.
  assert (FromBuffer (ipc_handle h) = (OK, h)) as HF.
  { unfold FromBuffer, CudaIpcMemHandle, CudaIpcMemHandleImpl.
    rewrite <- Hh, firstn_all. by destruct h. }
  split; [|by rewrite HF].
  unfold Serialize, AllocateBuffer.
  destruct (Z.leb_spec 0 (Z.of_nat kHandleSize)); [|lia].
  destruct (Z.leb_spec (Z.of_nat kHandleSize)
              (Z.of_nat (length (free_bytes pool)))); [|lia].
  simpl andb. cbv iota. rewrite Nat2Z.id. do 2 f_equal.
  unfold memcpy. rewrite take_0, app_nil_l, Nat.add_0_l.
  rewrite (take_ge (ipc_handle h)) by lia.
  rewrite drop_ge; [by rewrite app_nil_r|].
  rewrite length_take. lia.
Qed.

Lemma Serialize_FromBuffer_roundtrip_witness :
  Serialize sample_handle sample_pool
  = (OK, Some (ipc_handle sample_handle),
     {| free_bytes := drop kHandleSize (free_bytes sample_pool) |}) ∧
  FromBuffer (ipc_handle sample_handle) = (OK, sample_handle) ∧
  ipc_handle (FromBuffer (ipc_handle sample_handle)).2
  = ipc_handle sample_handle.
Proof.
  apply (Serialize_FromBuffer_roundtrip sample_handle sample_pool).
  - reflexivity.
  - vm_compute. lia.
Defined.

(** A pool that cannot serve the request makes [Serialize] fail, with no
    buffer. *)
Lemma Serialize_out_of_memory (h : CudaIpcMemHandle.t) (pool : MemoryPool) :
  (length (free_bytes pool) < kHandleSize)%nat →
  Serialize h pool = (OutOfMemory "malloc of size failed", None, pool).
Proof.
  intros Hp. unfold Serialize, AllocateBuffer.
  destruct (Z.leb_spec (Z.of_nat kHandleSize)
              (Z.of_nat (length (free_bytes pool)))); [lia|].
  by rewrite andb_false_r.
Qed.

End Handle.

(** ** The buffered writer *)

Section WriterClaims.

Import CudaBufferWriterImpl.

Implicit Types (w : CudaBufferWriterImpl.t) (ctx : CudaContext.t)
         (data : list byte).

Lemma reachable_sample_staged_writer : reachable sample_staged_writer.
Proof.
  assert (reachable sample_writer) as H0
    by (by apply (reachable_new sample_buffer)).
  apply (reachable_call (Call_SetBufferSize 4) _ sample_context) in H0.
  apply (reachable_call (Call_Write [x07]) _ sample_context) in H0.
  exact H0.
Defined.

(** C10: in every state a writer can be in, that is after its construction
    and after any call of Write, Flush, SetBufferSize, Seek, WriteAt or
    Close (successful or not), a staging capacity [buffer_size_ > 0] bounds
    the staged count: [0 <= buffer_position_ < buffer_size_]. *)
Theorem staging_invariant w :
  reachable w →
  staging_bounded w ∧ ∀ c ctx, staging_bounded (call c w ctx).1.2.
Proof.
  intros Hr.
  assert (∀ w', reachable w' → staging_bounded w') as Hb.
  { intros w' Hr' Hs.
    destruct (reachable_staging_wf w' Hr') as (H0 & [H|H] & _); lia. }
  split; [by apply Hb|]. intros c ctx. by apply Hb, reachable_call.
Qed.

Lemma staging_invariant_witness :
  staging_bounded sample_staged_writer ∧
  ∀ c ctx, staging_bounded (call c sample_staged_writer ctx).1.2.
Proof.
  apply (staging_invariant sample_staged_writer).
  exact reachable_sample_staged_writer.
Defined.

(** C4: a buffered [Write] of [n > 0] bytes with [s] bytes staged and
    capacity [C].
    When [s + n >= C] the call succeeds exactly when the range of the staged
    and of the new bytes is mapped, and then it made the transfer of the [s]
    staged bytes to [position_ - s] (no transfer when [s = 0]) followed by
    one transfer of all the new bytes to [position_]; nothing is staged
    afterwards, the host buffer was not written, and the cursor advanced by
    [n].
    When [s + n < C] the call makes no call to the context and returns OK;
    the new bytes are in the host buffer at offset [s], the staged count
    is [s + n] and the cursor advanced by [n]. *)
Theorem Write_boundary_policy w ctx data :
  let C := buffer_size_ w in
  let s := buffer_position_ w in
  let n := Z.of_nat (length data) in
  let a := mutable_data_ w + position_ w in
  let r := CudaBufferWriter.Write w ctx data in
  staging_wf w → 0 < C → 0 < n →
  (C <= s + n →
     Z.of_nat (length (staged w)) = s ∧
     (r.1.1 = OK ↔
      range_mapped (CudaContext.device_memory ctx) (a - s)
        (length (staged w ++ data)) = true) ∧
     (r.1.1 = OK →
      CudaContext.driver_calls r.2
      = CudaContext.driver_calls ctx
          ++ (if 0 <? s then [Call_CopyHostToDevice (a - s) (staged w)]
              else [])
          ++ [Call_CopyHostToDevice a data] ∧
      CudaContext.device_memory r.2
      = store (store (CudaContext.device_memory ctx) (a - s) (staged w))
              a data ∧
      buffer_position_ r.1.2 = 0 ∧
      host_buffer_data_ r.1.2 = host_buffer_data_ w ∧
      position_ r.1.2 = position_ w + n)) ∧
  (s + n < C →
     r = (OK,
          set_position_ (position_ w + n)
            (set_buffer_position_ (s + n)
               (set_host_buffer_data_
                  (memcpy (host_buffer_data_ w) (Z.to_nat s) data
                          (length data)) w)),
          ctx) ∧
     staged r.1.2 = staged w ++ data ∧
     buffer_position_ r.1.2 = s + n ∧
     position_ r.1.2 = position_ w + n).
Proof.
  intros C s n a r Hwf HC Hn.
  assert (data ≠ []) as Hd by (intros ->; simpl in *; lia).
  pose proof (staged_length w Hwf HC) as Hlen. fold s in Hlen.
  unfold r, CudaBufferWriter.Write. split.
  - intros Hge. split; [done|].
    rewrite Write_direct by (try done; fold n s C; lia).
    rewrite length_app, range_mapped_app, Hlen.
    replace (a - s + s) with a by lia.
    destruct (Z.ltb_spec 0 s) as [Hs|Hs].
    + rewrite Flush_pending by done. fold s a.
      replace (mutable_data_ w + position_ w - s) with (a - s) by (unfold a; lia).
      destruct (range_mapped _ (a - s) _) eqn:Hm1.
      2:{ rewrite CopyHostToDevice_unmapped by done. done. }
      rewrite CopyHostToDevice_mapped by done.
      cbn [mutable_data_ position_ set_buffer_position_]. fold a.
      destruct (range_mapped (CudaContext.device_memory ctx) a _) eqn:Hm2.
      2:{ rewrite CopyHostToDevice_unmapped; [done|].
          cbn [CudaContext.device_memory].
          by rewrite range_mapped_store. }
      rewrite CopyHostToDevice_mapped
        by (cbn [CudaContext.device_memory]; by rewrite range_mapped_store).
      cbn. split; [done|]. intros _. by rewrite <- app_assoc.
    + assert (s = 0) as Hs0 by (destruct Hwf as (? & _); unfold s in *; lia).
      rewrite Flush_idle by (right; fold s; lia). fold a.
      assert (staged w = []) as -> by (unfold staged; fold s; by rewrite Hs0).
      rewrite Hs0, Z.sub_0_r. cbn [range_mapped length andb store].
      destruct (range_mapped (CudaContext.device_memory ctx) a _) eqn:Hm2.
      2:{ rewrite CopyHostToDevice_unmapped by done. done. }
      rewrite CopyHostToDevice_mapped by done.
      cbn. split; [done|]. intros _. repeat split; done.
  - intros Hlt. rewrite Write_staged by (try done; fold n s C; lia).
    split; [done|]. cbn. split; [|done].
    unfold staged. cbn. fold s.
    destruct Hwf as (H0 & _ & Hh). specialize (Hh HC).
    replace (Z.to_nat (s + Z.of_nat (length data)))
      with (Z.to_nat s + length data)%nat by (unfold s in *; lia).
    apply memcpy_take. unfold s, C in *. lia.
Qed.

Lemma staging_wf_sample_staged_writer : staging_wf sample_staged_writer.
Proof. unfold staging_wf; simpl. lia. Defined.

Lemma Write_boundary_policy_witness :
  (let r := CudaBufferWriter.Write sample_staged_writer sample_context
              [x01; x02; x03] in
   r.1.1 = OK ∧
   CudaContext.driver_calls r.2
   = [Call_CopyHostToDevice 100 [x07];
      Call_CopyHostToDevice 101 [x01; x02; x03]] ∧
   position_ r.1.2 = 4) ∧
  (let r := CudaBufferWriter.Write sample_staged_writer sample_context
              [x01] in
   staged r.1.2 = [x07; x01] ∧ r.2 = sample_context).
Proof.
  split.
  - destruct (Write_boundary_policy sample_staged_writer sample_context
                [x01; x02; x03] staging_wf_sample_staged_writer)
      as [H _]; [simpl; lia | simpl; lia |].
    destruct H as (_ & Hiff & Hok); [simpl; lia|].
    destruct Hiff as [_ Hst]. specialize (Hst eq_refl).
    destruct (Hok Hst) as (Hcalls & _ & _ & _ & Hpos).
    cbv zeta. split; [exact Hst|]. split; [exact Hcalls | exact Hpos].
  - destruct (Write_boundary_policy sample_staged_writer sample_context
                [x01] staging_wf_sample_staged_writer)
      as [_ H]; [simpl; lia | simpl; lia |].
    destruct H as (Hr & Hst & _); [simpl; lia|].
    cbv zeta. split; [exact Hst|]. by rewrite Hr.
Defined.

(** C5: [Seek] is a flush followed by the validation of the target: a
    failed flush is the result; after a flush that succeeded a target
    outside [0, size_) is the IO error "position out of bounds", with the
    cursor where it was, and a target inside becomes the cursor.  When
    [Seek] succeeds on a writer with staged bytes, nothing is staged
    afterwards and the staged bytes are in device memory at the position
    they were written to: [CopyToHost] over that range reads them. *)
Theorem Seek_flushes_then_validates w ctx position :
  CudaBufferWriter.Seek w ctx position
  = (RETURN_NOT_OK (w1, ctx1) := CudaBufferWriter.Flush w ctx in
     if (position <? 0) || (size_ w <=? position)
     then (IOError "position out of bounds", w1, ctx1)
     else (OK, set_position_ position w1, ctx1)) ∧
  (staging_wf w → 0 < buffer_size_ w →
   CudaBuffer.data_ (buffer_ w) = mutable_data_ w →
   ∀ w' ctx', CudaBufferWriter.Seek w ctx position = (OK, w', ctx') →
     0 <= position < size_ w ∧
     position_ w' = position ∧
     buffer_position_ w' = 0 ∧
     (CudaBuffer.CopyToHost (buffer_ w') ctx'
        (position_ w - buffer_position_ w) (buffer_position_ w)).1
     = (OK, Some (staged w))).
Proof.
  assert (CudaBufferWriter.Seek w ctx position
          = (RETURN_NOT_OK (w1, ctx1) := CudaBufferWriter.Flush w ctx in
             if (position <? 0) || (size_ w <=? position)
             then (IOError "position out of bounds", w1, ctx1)
             else (OK, set_position_ position w1, ctx1))) as Heq.
  { unfold CudaBufferWriter.Seek, CudaBufferWriter.Flush, buffer_position.
    destruct (Z.ltb_spec 0 (buffer_position_ w)) as [Hp|Hp].
    - destruct (Flush_frame w ctx) as (_ & _ & Hsz & _).
      destruct (Flush w ctx) as [[[] w1] ctx1]; try done.
      unfold Seek. simpl in Hsz. by rewrite Hsz.
    - by rewrite Flush_idle by (right; lia). }
  split; [exact Heq|].
  intros Hwf Hs Hdata w' ctx'. rewrite Heq. clear Heq.
  unfold CudaBufferWriter.Flush.
  destruct (Flush_effect w ctx Hwf Hs) as [_ HF].
  destruct (Flush_frame w ctx) as (Hbuf & _).
  destruct (Flush w ctx) as [[[] w1] ctx1]; try done.
  destruct (HF eq_refl) as [Hw1 Hmem]. simpl in Hw1, Hmem, Hbuf. clear HF.
  destruct (Z.ltb_spec position 0) as [?|Hlo]; [done|].
  destruct (Z.leb_spec (size_ w) position) as [?|Hhi]; [done|].
  simpl. intros [= <- <-]. split; [lia|]. split; [done|].
  split; [by rewrite Hw1|].
  unfold CudaBuffer.CopyToHost, CudaContext.CopyDeviceToHost.
  cbn [buffer_ set_position_]. rewrite Hbuf, Hdata, Hmem.
  pose proof (staged_length w Hwf Hs) as Hlen.
  destruct Hwf as (Hnonneg & _).
  destruct (Z.leb_spec 0 (buffer_position_ w)); [|lia].
  replace (mutable_data_ w + (position_ w - buffer_position_ w))
    with (mutable_data_ w + position_ w - buffer_position_ w) by lia.
  replace (Z.to_nat (buffer_position_ w)) with (length (staged w)) by lia.
  by rewrite load_store.
Qed.

Lemma Seek_flushes_then_validates_witness :
  let r := CudaBufferWriter.Seek sample_staged_writer sample_context 5 in
  r.1.1 = OK ∧ position_ r.1.2 = 5 ∧ buffer_position_ r.1.2 = 0 ∧
  (CudaBuffer.CopyToHost (buffer_ r.1.2) r.2 0 1).1 = (OK, Some [x07]).
Proof.
  cbv zeta.
  destruct (Seek_flushes_then_validates sample_staged_writer sample_context
              5) as [_ H].
  specialize (H staging_wf_sample_staged_writer).
  destruct (CudaBufferWriter.Seek sample_staged_writer sample_context 5)
    as [[st w'] ctx'] eqn:HS.
  assert (st = OK) as -> by (by vm_compute in HS; simplify_eq).
  destruct (H ltac:(simpl; lia) eq_refl w' ctx' eq_refl)
    as (_ & Hpos & Hbp & Hread).
  split; [reflexivity|]. split; [exact Hpos|]. split; [exact Hbp|].
  exact Hread.
Defined.

(** C3, for the runs that succeed: take a writer without staging area and
    the writer [SetBufferSize] makes of it for a capacity of at least 1.
    For every sequence of chunks, writing them in turn and flushing succeeds
    on the one exactly when it succeeds on the other, and then both leave
    the same device memory and the same cursor. *)
Theorem buffering_equivalence w ctx capacity (chunks : list (list byte)) :
  buffer_size_ w = 0 → buffer_position_ w = 0 → 1 <= capacity →
  let configured := CudaBufferWriter.SetBufferSize w ctx capacity in
  let unbuffered := WriteAllThenFlush w ctx chunks in
  let buffered := WriteAllThenFlush configured.1.2 configured.2 chunks in
  configured.1.1 = OK ∧
  buffer_size_ configured.1.2 = capacity ∧
  (unbuffered.1.1 = OK ↔ buffered.1.1 = OK) ∧
  (unbuffered.1.1 = OK →
   CudaContext.device_memory buffered.2
   = CudaContext.device_memory unbuffered.2 ∧
   position_ buffered.1.2 = position_ unbuffered.1.2).
Proof.
  intros Hs Hp Hc.
  unfold CudaBufferWriter.SetBufferSize, SetBufferSize.
  rewrite Hp. cbn [Z.ltb Z.compare].
  unfold AllocateCudaHostBuffer, CudaContext.AllocateHost.
  destruct (Z.leb_spec 0 capacity); [|lia].
  set (wb := set_buffer_size_ capacity _).
  set (ctxb := CudaContext.record_call _ ctx).
  cbn [fst snd]. split; [done|]. split; [done|].
  assert (staging_wf wb) as Hwf.
  { unfold staging_wf, wb; simpl. rewrite Hp.
    split; [done|]. split; [by left|]. intros _.
    rewrite length_replicate. lia. }
  assert (0 < buffer_size_ wb) as Hsb by (unfold wb; simpl; lia).
  destruct (WriteAllThenFlush_unbuffered chunks w ctx) as [Hu1 Hu2]; [lia|].
  destruct (WriteAllThenFlush_buffered chunks wb ctxb Hwf Hsb) as [Hb1 Hb2].
  assert (staged wb = []) as Hst by (unfold staged, wb; simpl; by rewrite Hp).
  rewrite Hst in Hb1, Hb2.
  cbn [app wb ctxb mutable_data_ position_ buffer_position_
       set_buffer_size_ set_host_buffer_data_ CudaContext.device_memory
       CudaContext.record_call] in Hb1, Hb2.
  rewrite Hp, Z.sub_0_r in Hb1, Hb2.
  split; [by rewrite Hu1, Hb1|].
  intros Hok. destruct (Hu2 Hok) as [-> ->].
  apply Hu1, Hb1 in Hok. by destruct (Hb2 Hok) as [-> ->].
Qed.

Lemma buffering_equivalence_witness :
  let chunks := [[x01; x02]; [x03]; [x04; x05; x06]; [x07]] in
  let configured := CudaBufferWriter.SetBufferSize sample_writer
                      sample_context 3 in
  let unbuffered := WriteAllThenFlush sample_writer sample_context chunks in
  let buffered := WriteAllThenFlush configured.1.2 configured.2 chunks in
  unbuffered.1.1 = OK ∧
  CudaContext.device_memory buffered.2
  = CudaContext.device_memory unbuffered.2.
Proof.
  cbv zeta.
  destruct (buffering_equivalence sample_writer sample_context 3
              [[x01; x02]; [x03]; [x04; x05; x06]; [x07]] eq_refl eq_refl)
    as (_ & _ & _ & H); [lia|].
  assert ((WriteAllThenFlush sample_writer sample_context
             [[x01; x02]; [x03]; [x04; x05; x06]; [x07]]).1.1 = OK) as Hok
    by (vm_compute; reflexivity).
  split; [exact Hok|]. exact (proj1 (H Hok)).
Defined.

(** The run of the witness above on the configured writer: the first chunk
    is staged and flushed by the second write, which is sent directly like
    the third; the last chunk is staged and leaves with the final flush. *)
Example buffering_equivalence_witness_run :
  let configured := CudaBufferWriter.SetBufferSize sample_writer
                      sample_context 3 in
  let buffered := WriteAllThenFlush configured.1.2 configured.2
                    [[x01; x02]; [x03]; [x04; x05; x06]; [x07]] in
  (CudaBufferWriter.Write configured.1.2 configured.2 [x01; x02]).2
  = configured.2 ∧
  CudaContext.driver_calls buffered.2
  = [Call_AllocateHost 3; Call_CopyHostToDevice 100 [x01; x02];
     Call_CopyHostToDevice 102 [x03];
     Call_CopyHostToDevice 103 [x04; x05; x06];
     Call_CopyHostToDevice 106 [x07]] ∧
  CudaContext.device_memory buffered.2
  = store ∅ 100 [x01; x02; x03; x04; x05; x06; x07; x00].
Proof. vm_compute. repeat split. Qed.

(** C3, as stated, fails on a sequence that overruns the mapped memory: 9
    bytes in chunks of 6 and 3 for an allocation of 8.  Without staging the
    first chunk is on the device when the second transfer fails; with a
    capacity of 16 both chunks are staged and the one transfer of the final
    flush fails, so the device holds none of them. *)
Lemma buffering_overrun_counterexample :
  let chunks := [[x01; x02; x03; x04; x05; x06]; [x07; x08; x09]] in
  let configured := CudaBufferWriter.SetBufferSize sample_writer
                      sample_context 16 in
  let unbuffered := WriteAllThenFlush sample_writer sample_context chunks in
  let buffered := WriteAllThenFlush configured.1.2 configured.2 chunks in
  configured.1.1 = OK ∧
  CudaContext.device_memory unbuffered.2
  = store ∅ 100 [x01; x02; x03; x04; x05; x06; x00; x00] ∧
  CudaContext.device_memory buffered.2
  = store ∅ 100 [x00; x00; x00; x00; x00; x00; x00; x00] ∧
  CudaContext.device_memory unbuffered.2
  ≠ CudaContext.device_memory buffered.2.
Proof. vm_compute. repeat split. discriminate. Qed.

(** The scenario of the spec: an 8-byte buffer, a staging capacity of 2 and
    the bytes 1, 2, 3, 4 written two at a time.  Each write reaches the
    capacity and is sent directly. *)
Example staging_capacity_2_scenario :
  let configured := CudaBufferWriter.SetBufferSize sample_writer
                      sample_context 2 in
  let r := WriteAllThenFlush configured.1.2 configured.2
             [[x01; x02]; [x03; x04]] in
  r.1.1 = OK ∧
  CudaContext.driver_calls r.2
  = [Call_AllocateHost 2; Call_CopyHostToDevice 100 [x01; x02];
     Call_CopyHostToDevice 102 [x03; x04]] ∧
  CudaContext.device_memory r.2
  = store ∅ 100 [x01; x02; x03; x04; x00; x00; x00; x00].
Proof. vm_compute. repeat split. Qed.

(** When nothing is staged, [WriteAt] is the public [Seek] followed by
    [Write]. *)
Lemma WriteAt_SeekThenWrite_idle w ctx position data :
  buffer_position_ w <= 0 →
  CudaBufferWriter.WriteAt w ctx position data
  = SeekThenWrite w ctx position data.
Proof.
  intros Hp.
  unfold CudaBufferWriter.WriteAt, WriteAt, SeekThenWrite,
    CudaBufferWriter.Seek, CudaBufferWriter.Write, buffer_position.
  destruct (Z.ltb_spec 0 (buffer_position_ w)); [lia|].
  by destruct (Seek w ctx position) as [[[] w1] ctx1].
Qed.

(** C1, the code at the failing input: the writer has the byte 7 staged
    for position 0 and is asked to write the byte 9 at position 5.
    [WriteAt] moves the cursor without a flush and stages 9 behind 7, so
    the next flush stores 7 at offset 4; [Seek] followed by [Write] stores 7
    at offset 0 before it moves the cursor. *)
Theorem WriteAt_moves_cursor_without_flush :
  let at5 := CudaBufferWriter.WriteAt sample_staged_writer sample_context
               5 [x09] in
  let seek_write := SeekThenWrite sample_staged_writer sample_context
                      5 [x09] in
  at5.1.1 = OK ∧ seek_write.1.1 = OK ∧
  staged at5.1.2 = [x07; x09] ∧ staged seek_write.1.2 = [x09] ∧
  CudaContext.driver_calls at5.2 = [] ∧
  CudaContext.driver_calls seek_write.2 = [Call_CopyHostToDevice 100 [x07]] ∧
  CudaContext.device_memory (CudaBufferWriter.Flush at5.1.2 at5.2).2
  = store ∅ 100 [x00; x00; x00; x00; x07; x09; x00; x00] ∧
  CudaContext.device_memory
    (CudaBufferWriter.Flush seek_write.1.2 seek_write.2).2
  = store ∅ 100 [x07; x00; x00; x00; x00; x09; x00; x00] ∧
  at5 ≠ seek_write.
Proof. vm_compute. repeat split. discriminate. Qed.

End WriterClaims.

(** * Further properties *)

(** ** Reading device memory *)

Section DeviceMemoryReads.

Implicit Types (m : gmap Z byte) (a i : Z) (n : nat) (bs : list byte).


Lemma load_app m a n1 n2 :
  load m a (n1 + n2) =
  match load m a n1, load m (a + Z.of_nat n1) n2 with
  | Some xs, Some ys => Some (xs ++ ys)
  | _, _ => None
  end.
Proof.
  revert a. induction n1 as [|n1 IH]; intros a; simpl.
  - rewrite Z.add_0_r. by destruct (load m a n2).
  - rewrite IH.
    replace (a + 1 + Z.of_nat n1) with (a + Z.pos (Pos.of_succ_nat n1))
      by lia.
    destruct (m !! a); [|done].
    destruct (load m (a + 1) n1); [|done].
    by destruct (load m _ n2).
Qed.

Lemma load_store_app m a xs ys :
  load (store m a (xs ++ ys)) (a + Z.of_nat (length xs)) (length ys)
  = Some ys.
Proof. rewrite store_app. apply load_store. Qed.

Lemma store_dom m a bs :
  range_mapped m a (length bs) = true → dom (store m a bs) = dom m.
Proof.
  intros Hm. apply set_eq. intros i. rewrite !elem_of_dom, store_is_Some.
  rewrite range_mapped_spec in Hm. split; [|by left].
  intros [H|H]; [done | by apply Hm].
Qed.

End DeviceMemoryReads.

(** ** The reader *)

Section Reader.

Import CudaBufferReader.

Implicit Types (r : CudaBufferReader.t) (ctx : CudaContext.t).



(** Two reads in a row deliver what one read of the sum of the two counts
    delivers, and leave the reader in the same state. *)
Theorem Read_Read r ctx n1 n2 k1 k2 bs1 bs2 r1 r2 ctx1 ctx2 :
  0 <= n1 → 0 <= n2 → 0 <= position_ r <= size_ r →
  Read r ctx n1 = (OK, k1, Some bs1, r1, ctx1) →
  Read r1 ctx1 n2 = (OK, k2, Some bs2, r2, ctx2) →
  (Read r ctx (n1 + n2)).1
  = (OK, k1 + k2, Some (bs1 ++ bs2), r2).
Proof.
  intros Hn1 Hn2 Hpos. unfold Read, CudaContext.CopyDeviceToHost.
  set (rem := size_ r - position_ r).
  destruct (Z.leb_spec 0 (Z.min n1 rem)); [|lia].
  destruct (load _ _ (Z.to_nat (Z.min n1 rem))) as [xs|] eqn:Hl1; [|done].
  intros [= <- <- <- <-]. cbn [size_ position_ data_ set_position_
    CudaContext.device_memory CudaContext.record_call].
  replace (size_ r - (position_ r + Z.min n1 rem))
    with (rem - Z.min n1 rem) by (unfold rem; lia).
  destruct (Z.leb_spec 0 (Z.min n2 (rem - Z.min n1 rem))); [|lia].
  destruct (load _ _ (Z.to_nat (Z.min n2 _))) as [ys|] eqn:Hl2; [|done].
  intros [= <- <- <- <-].
  assert (Z.min (n1 + n2) rem = Z.min n1 rem + Z.min n2 (rem - Z.min n1 rem))
    as -> by lia.
  destruct (Z.leb_spec 0 (Z.min n1 rem + Z.min n2 (rem - Z.min n1 rem)));
    [|lia].
  rewrite Z2Nat.inj_add, load_app by lia.
  rewrite Hl1. rewrite Z2Nat.id by lia.
  replace (data_ r + position_ r + Z.min n1 rem)
    with (data_ r + (position_ r + Z.min n1 rem)) by lia.
  rewrite Hl2. simpl. unfold set_position_; simpl.
  by rewrite Z.add_assoc.
Qed.

Lemma Read_Read_witness :
  (Read sample_reader sample_filled_context (3 + 20)).1
  = (OK, 3 + 5, Some ([x01; x02; x03] ++ [x04; x05; x06; x07; x08]),
     set_position_ 8 sample_reader).
Proof.
  eapply (Read_Read sample_reader sample_filled_context 3 20);
    [lia | lia | simpl; lia | vm_compute; reflexivity
    | vm_compute; reflexivity].
Defined.

(** The slice a zero-copy read returns covers what a copying read would
    deliver: it never owns the data (closing it makes no call), and
    [CopyToHost] over the whole slice is the transfer the copying read makes.
    The zero-copy read always advances the cursor by the size of the slice;
    the copying read leaves the reader in that same state when its transfer
    succeeds, and leaves the cursor where it was when the transfer fails. *)
Theorem Read_buffer_zero_copy r ctx nbytes :
  data_ r = CudaBuffer.data_ (cuda_buffer_ r) →
  let '(st, out, r') := Read_buffer r nbytes in
  let copy := Read r ctx nbytes in
  st = OK ∧
  CudaBuffer.size_ out = copy.1.1.1.2 ∧
  CudaBuffer.Close out ctx = (OK, ctx) ∧
  CudaBuffer.CopyToHost out ctx 0 (CudaBuffer.size_ out)
  = (copy.1.1.1.1, copy.1.1.2, copy.2) ∧
  r' = set_position_ (position_ r + CudaBuffer.size_ out) r ∧
  (copy.1.1.1.1 = OK → copy.1.2 = r') ∧
  (copy.1.1.1.1 ≠ OK → copy.1.2 = r).
Proof.
  intros Hdata. unfold Read_buffer, Read. cbv zeta.
  unfold CudaBuffer.CopyToHost. cbn [CudaBuffer.data_ CudaBuffer.size_
    CudaBuffer.CudaBuffer_slice].
  rewrite Z.add_0_r, <- Hdata.
  destruct (CudaContext.CopyDeviceToHost _ _ _) as [[[] bs] c]; done.
Qed.

Lemma Read_buffer_zero_copy_witness :
  CudaBuffer.CopyToHost (Read_buffer sample_reader 3).1.2
    sample_filled_context 0 3
  = ((Read sample_reader sample_filled_context 3).1.1.1.1,
     (Read sample_reader sample_filled_context 3).1.1.2,
     (Read sample_reader sample_filled_context 3).2).
Proof.
  apply (Read_buffer_zero_copy sample_reader sample_filled_context 3).
  reflexivity.
Defined.

End Reader.

(** ** More on the writer *)

Section WriterFurther.

Import CudaBufferWriterImpl.

Implicit Types (w : CudaBufferWriterImpl.t) (ctx : CudaContext.t)
         (data : list byte).

(** The cursor of the writer advances by the number of bytes written when
    [Write] succeeds and stays where it was when [Write] fails, in every mode
    and whatever is staged. *)
Theorem Write_cursor w ctx data :
  let r := CudaBufferWriter.Write w ctx data in
  position_ r.1.2
  = position_ w + (if ok r.1.1 then Z.of_nat (length data) else 0).
Proof.
  cbv zeta. unfold CudaBufferWriter.Write.
  destruct (decide (data = [])) as [->|Hd].
  { rewrite Write_empty. simpl. lia. }
  destruct (Z.lt_ge_cases 0 (buffer_size_ w)) as [Hs|Hs].
  - destruct (Z.lt_ge_cases (Z.of_nat (length data) + buffer_position_ w)
                (buffer_size_ w)) as [Hlt|Hge].
    + by rewrite Write_staged.
    + rewrite Write_direct by done.
      destruct (Flush_frame w ctx) as (_ & _ & _ & Hp & _).
      destruct (Flush w ctx) as [[stf w1] ctx1]. simpl in Hp.
      destruct stf; simpl; try lia.
      destruct (CudaContext.CopyHostToDevice _ _ _) as [[] ?]; simpl; lia.
  - rewrite Write_unbuffered by done.
    destruct (CudaContext.CopyHostToDevice _ _ _) as [[] ?]; simpl; lia.
Qed.

(** After a flush that succeeded, a further flush makes no call to the
    context and changes nothing, in whatever state the context is; a flush
    that failed leaves the writer, and so the staged bytes, as they were. *)
Theorem Flush_twice w ctx st w1 ctx1 :
  CudaBufferWriter.Flush w ctx = (st, w1, ctx1) →
  (st = OK → ∀ ctx2, CudaBufferWriter.Flush w1 ctx2 = (OK, w1, ctx2)) ∧
  (st ≠ OK → w1 = w).
Proof.
  unfold CudaBufferWriter.Flush, Flush, context_call.
  destruct (_ && _) eqn:Hc.
  - destruct (CudaContext.CopyHostToDevice _ _ _) as [[] c];
      intros [= <- <- <-]; (split; [|done]); try done.
    intros _ ctx2. simpl. by rewrite andb_false_r.
  - intros [= <- <- <-]. split; [|done]. intros _ ctx2. by rewrite Hc.
Qed.

Lemma Flush_twice_witness :
  CudaBufferWriter.Flush (set_buffer_position_ 0 sample_staged_writer)
    sample_filled_context
  = (OK, set_buffer_position_ 0 sample_staged_writer, sample_filled_context).
Proof.
  eapply (Flush_twice sample_staged_writer sample_context);
    [vm_compute; reflexivity | reflexivity].
Defined.

(** [WriteAt] validates the target only: a target outside [0, size_) is the
    IO error and nothing else happens, no flush, no transfer, no change of
    the writer; a target inside is taken as the cursor and the bytes are
    written there as [Write] writes them, without a check of where they
    end. *)
Theorem WriteAt_bounds w ctx position data :
  (position < 0 ∨ size_ w <= position →
   CudaBufferWriter.WriteAt w ctx position data
   = (IOError "position out of bounds", w, ctx)) ∧
  (0 <= position < size_ w →
   CudaBufferWriter.WriteAt w ctx position data
   = CudaBufferWriter.Write (set_position_ position w) ctx data).
Proof.
  unfold CudaBufferWriter.WriteAt, WriteAt, Seek.
  split; intros H.
  - destruct (Z.ltb_spec position 0), (Z.leb_spec (size_ w) position);
      simpl; try done; lia.
  - destruct (Z.ltb_spec position 0), (Z.leb_spec (size_ w) position);
      simpl; try done; lia.
Qed.

Lemma WriteAt_bounds_witness :
  CudaBufferWriter.WriteAt sample_writer sample_context 8 [x01]
  = (IOError "position out of bounds", sample_writer, sample_context) ∧
  CudaBufferWriter.WriteAt sample_writer sample_context 7 [x01; x02]
  = CudaBufferWriter.Write (set_position_ 7 sample_writer) sample_context
      [x01; x02].
Proof.
  split.
  - apply (WriteAt_bounds sample_writer sample_context 8 [x01]).
    right. simpl. lia.
  - apply (WriteAt_bounds sample_writer sample_context 7 [x01; x02]).
    simpl. lia.
Defined.

(** *** What the writer leaves alone *)

Lemma writer_step_refl ctx : writer_step ctx ctx.
Proof. exists []. by rewrite app_nil_r. Qed.

Lemma writer_step_trans ctx1 ctx2 ctx3 :
  writer_step ctx1 ctx2 → writer_step ctx2 ctx3 → writer_step ctx1 ctx3.
Proof.
  intros (n1 & Hc1 & Hf1 & Hd1) (n2 & Hc2 & Hf2 & Hd2).
  exists (n1 ++ n2). rewrite Hc2, Hc1, <- app_assoc, forallb_app, Hf1, Hf2.
  by rewrite Hd2, Hd1.
Qed.

Lemma writer_step_CopyHostToDevice ctx dst (src : list byte) :
  writer_step ctx (CudaContext.CopyHostToDevice ctx dst src).2.
Proof.
  exists [Call_CopyHostToDevice dst src].
  unfold CudaContext.CopyHostToDevice.
  destruct (range_mapped _ _ _) eqn:Hm; simpl; [|done].
  by rewrite store_dom.
Qed.

Lemma writer_frame_refl st w ctx : writer_frame w ctx (st, w, ctx).
Proof. repeat split. apply writer_step_refl. Qed.

Lemma writer_frame_trans w ctx st w1 ctx1 r :
  writer_frame w ctx (st, w1, ctx1) → writer_frame w1 ctx1 r →
  writer_frame w ctx r.
Proof.
  intros (Hb & Hm & Hs & Hc) (Hb' & Hm' & Hs' & Hc'). simpl in *.
  unfold writer_frame. rewrite Hb', Hm', Hs'.
  repeat split; try done. by eapply writer_step_trans.
Qed.

Lemma writer_frame_context_call w ctx st dst (src : list byte) :
  writer_frame w ctx
    (st, w, (CudaContext.CopyHostToDevice ctx dst src).2).
Proof. repeat split. apply writer_step_CopyHostToDevice. Qed.

Lemma writer_frame_Flush w ctx : writer_frame w ctx (Flush w ctx).
Proof.
  destruct (Flush_frame w ctx) as (Hb & Hm & Hs & _).
  repeat split; try done.
  unfold Flush, context_call. destruct (_ && _); [|apply writer_step_refl].
  pose proof (writer_step_CopyHostToDevice ctx
    (mutable_data_ w + position_ w - buffer_position_ w)
    (take (Z.to_nat (buffer_position_ w)) (host_buffer_data_ w))) as Hc.
  by destruct (CudaContext.CopyHostToDevice _ _ _) as [[] c].
Qed.

Lemma writer_frame_Seek w ctx p : writer_frame w ctx (Seek w ctx p).
Proof.
  unfold Seek. destruct (_ || _); repeat split; apply writer_step_refl.
Qed.

Lemma writer_frame_Write w ctx data : writer_frame w ctx (Write w ctx data).
Proof.
  destruct (decide (data = [])) as [->|Hd]; [apply writer_frame_refl|].
  destruct (Z.lt_ge_cases 0 (buffer_size_ w)) as [Hs|Hs].
  - destruct (Z.lt_ge_cases (Z.of_nat (length data) + buffer_position_ w)
                (buffer_size_ w)) as [Hlt|Hge].
    + rewrite Write_staged by done. repeat split. apply writer_step_refl.
    + rewrite Write_direct by done.
      pose proof (writer_frame_Flush w ctx) as HF.
      destruct (Flush w ctx) as [[stf w1] ctx1].
      destruct stf; try done. eapply writer_frame_trans; [exact HF|].
      pose proof (writer_frame_context_call w1 ctx1 OK
        (mutable_data_ w1 + position_ w1) data) as Hc.
      by destruct (CudaContext.CopyHostToDevice _ _ _) as [[] c].
  - rewrite Write_unbuffered by done.
    pose proof (writer_frame_context_call w ctx OK
      (mutable_data_ w + position_ w) data) as Hc.
    by destruct (CudaContext.CopyHostToDevice _ _ _) as [[] c].
Qed.

(** Whatever a writer is asked to do other than [SetBufferSize], it stays
    on the buffer it was built on, the calls it makes to the context are
    transfers to the device only (it never frees, exports, closes or
    allocates anything), and the set of mapped device addresses is as
    before. *)
Theorem writer_call_frame c w ctx :
  (∀ buffer_size, c ≠ Call_SetBufferSize buffer_size) →
  writer_frame w ctx (call c w ctx).
Proof.
  intros Hc. destruct c as [data| |n|position|position data|]; simpl.
  - apply writer_frame_Write.
  - apply writer_frame_Flush.
  - by destruct (Hc n).
  - unfold CudaBufferWriter.Seek, CudaBufferWriter.Flush, buffer_position.
    assert (writer_frame w ctx
      (if 0 <? buffer_position_ w then Flush w ctx else (OK, w, ctx))) as HF.
    { destruct (0 <? _); [apply writer_frame_Flush|apply writer_frame_refl]. }
    destruct (if 0 <? buffer_position_ w then _ else _) as [[stf w1] ctx1].
    destruct stf; try done.
    eapply writer_frame_trans; [exact HF | apply writer_frame_Seek].
  - unfold CudaBufferWriter.WriteAt, WriteAt.
    pose proof (writer_frame_Seek w ctx position) as HS.
    destruct (Seek w ctx position) as [[sts w1] ctx1].
    destruct sts; try done.
    eapply writer_frame_trans; [exact HS | apply writer_frame_Write].
  - apply writer_frame_Flush.
Qed.

Lemma writer_call_frame_witness :
  writer_frame sample_staged_writer sample_context
    (call (Call_Write [x01; x02; x03]) sample_staged_writer sample_context).
Proof.
  apply (writer_call_frame (Call_Write [x01; x02; x03]) sample_staged_writer
           sample_context).
  intros buffer_size. discriminate.
Defined.

(** *** Where the bytes go *)

Lemma CopyHostToDevice_lookup_outside ctx dst (src : list byte) i :
  i < dst ∨ dst + Z.of_nat (length src) <= i →
  CudaContext.device_memory (CudaContext.CopyHostToDevice ctx dst src).2 !! i
  = CudaContext.device_memory ctx !! i.
Proof.
  intros Hi. unfold CudaContext.CopyHostToDevice.
  destruct (range_mapped _ _ _); simpl; [|done].
  destruct Hi; [by apply store_lookup_lt | by apply store_lookup_ge].
Qed.

Lemma Flush_lookup_outside w ctx i :
  i < mutable_data_ w + position_ w - buffer_position_ w
  ∨ mutable_data_ w + position_ w <= i →
  CudaContext.device_memory (Flush w ctx).2 !! i
  = CudaContext.device_memory ctx !! i.
Proof.
  intros Hi.
  destruct (Z.lt_ge_cases 0 (buffer_size_ w)) as [Hs|Hs];
    [|by rewrite Flush_idle by lia].
  destruct (Z.lt_ge_cases 0 (buffer_position_ w)) as [Hp|Hp];
    [|by rewrite Flush_idle by lia].
  rewrite Flush_pending by done.
  pose proof (CopyHostToDevice_lookup_outside ctx
    (mutable_data_ w + position_ w - buffer_position_ w) (staged w) i) as H.
  destruct (CudaContext.CopyHostToDevice _ _ _) as [[] c]; apply H;
    unfold staged; rewrite length_take; lia.
Qed.

(** A [Write] changes no device byte outside the range of the staged bytes
    and of the new ones, [position_ - buffer_position_ .. position_ + n),
    whether it succeeds or fails. *)
Theorem Write_touches_only_its_range w ctx data i :
  0 <= buffer_position_ w →
  i < mutable_data_ w + position_ w - buffer_position_ w
  ∨ mutable_data_ w + position_ w + Z.of_nat (length data) <= i →
  CudaContext.device_memory (CudaBufferWriter.Write w ctx data).2 !! i
  = CudaContext.device_memory ctx !! i.
Proof.
  intros Hp Hi. unfold CudaBufferWriter.Write.
  destruct (decide (data = [])) as [->|Hd]; [done|].
  destruct (Z.lt_ge_cases 0 (buffer_size_ w)) as [Hs|Hs].
  - destruct (Z.lt_ge_cases (Z.of_nat (length data) + buffer_position_ w)
                (buffer_size_ w)) as [Hlt|Hge].
    + by rewrite Write_staged.
    + rewrite Write_direct by done.
      pose proof (Flush_lookup_outside w ctx i) as HF.
      destruct (Flush_frame w ctx) as (_ & Hm & _ & Hpos & _).
      destruct (Flush w ctx) as [[stf w1] ctx1]. simpl in HF, Hm, Hpos.
      rewrite Hm, Hpos.
      pose proof (CopyHostToDevice_lookup_outside ctx1
        (mutable_data_ w + position_ w) data i) as HC.
      destruct stf; simpl; try (apply HF; lia).
      destruct (CudaContext.CopyHostToDevice _ _ _) as [[] c]; simpl in *;
        rewrite HC by lia; apply HF; lia.
  - rewrite Write_unbuffered by done.
    pose proof (CopyHostToDevice_lookup_outside ctx
      (mutable_data_ w + position_ w) data i) as HC.
    destruct (CudaContext.CopyHostToDevice _ _ _) as [[] c]; simpl in *;
      apply HC; lia.
Qed.

Lemma Write_touches_only_its_range_witness :
  CudaContext.device_memory
    (CudaBufferWriter.Write sample_staged_writer sample_filled_context
       [x0a; x0b; x0c]).2 !! 104
  = CudaContext.device_memory sample_filled_context !! 104.
Proof.
  apply (Write_touches_only_its_range sample_staged_writer
           sample_filled_context [x0a; x0b; x0c] 104); simpl; lia.
Defined.

(** The device memory a successful run of writes and a flush leaves, in
    either mode. *)
Lemma WriteAllThenFlush_memory (chunks : list (list byte)) w ctx :
  staging_wf w →
  (WriteAllThenFlush w ctx chunks).1.1 = OK →
  CudaContext.device_memory (WriteAllThenFlush w ctx chunks).2
  = store (CudaContext.device_memory ctx)
      (mutable_data_ w + position_ w - buffer_position_ w)
      (staged w ++ concat chunks) ∧
  Z.of_nat (length (staged w)) = buffer_position_ w.
Proof.
  intros Hwf Hok.
  destruct (Z.lt_ge_cases 0 (buffer_size_ w)) as [Hs|Hs].
  - destruct (WriteAllThenFlush_buffered chunks w ctx Hwf Hs) as [_ H].
    split; [by apply H | by apply staged_length].
  - destruct (WriteAllThenFlush_unbuffered chunks w ctx Hs) as [_ H].
    assert (buffer_position_ w = 0) as Hp
      by (destruct Hwf as (? & [?|?] & _); lia).
    assert (staged w = []) as -> by (unfold staged; by rewrite Hp).
    rewrite Hp, Z.sub_0_r. split; [by apply H | done].
Qed.

(** Write, flush, read back: when the writes of a run and the final flush
    succeed, [CopyToHost] over the range the run started at reads the bytes
    written, in order, and a reader over the buffer of a writer that
    started at 0 reads them, when the buffer holds them all. *)
Theorem Write_Flush_read_back (chunks : list (list byte)) w ctx w' ctx' :
  staging_wf w →
  CudaBuffer.data_ (buffer_ w) = mutable_data_ w →
  WriteAllThenFlush w ctx chunks = (OK, w', ctx') →
  let total := Z.of_nat (length (concat chunks)) in
  (CudaBuffer.CopyToHost (buffer_ w) ctx' (position_ w) total).1
  = (OK, Some (concat chunks)) ∧
  (position_ w = 0 → total <= CudaBuffer.size_ (buffer_ w) →
   (CudaBufferReader.Read (CudaBufferReader.CudaBufferReader (buffer_ w))
      ctx' total).1
   = (OK, total, Some (concat chunks),
      CudaBufferReader.set_position_ total
        (CudaBufferReader.CudaBufferReader (buffer_ w)))).
Proof.
  intros Hwf Hdata Hrun total.
  destruct (WriteAllThenFlush_memory chunks w ctx Hwf) as [Hmem Hlen];
    [by rewrite Hrun|].
  rewrite Hrun in Hmem. simpl in Hmem.
  assert (load (CudaContext.device_memory ctx')
            (mutable_data_ w + position_ w) (Z.to_nat total)
          = Some (concat chunks)) as Hload.
  { pose proof (load_store_app (CudaContext.device_memory ctx)
      (mutable_data_ w + position_ w - buffer_position_ w)
      (staged w) (concat chunks)) as H.
    rewrite Hlen in H.
    replace (mutable_data_ w + position_ w - buffer_position_ w
             + buffer_position_ w)
      with (mutable_data_ w + position_ w) in H by lia.
    rewrite Hmem. unfold total. by rewrite Nat2Z.id. }
  split.
  - unfold CudaBuffer.CopyToHost, CudaContext.CopyDeviceToHost.
    rewrite Hdata, Hload.
    by destruct (Z.leb_spec 0 total); [|unfold total in *; lia].
  - intros Hpos Hsize.
    unfold CudaBufferReader.Read, CudaContext.CopyDeviceToHost.
    cbn [CudaBufferReader.CudaBufferReader CudaBufferReader.data_
         CudaBufferReader.size_ CudaBufferReader.position_].
    rewrite Z.sub_0_r, Z.min_l by done.
    rewrite Hpos in Hload. rewrite Hdata, Hload.
    by destruct (Z.leb_spec 0 total); [|unfold total in *; lia].
Qed.

Lemma Write_Flush_read_back_witness :
  let configured := CudaBufferWriter.SetBufferSize sample_writer
                      sample_context 3 in
  let run := WriteAllThenFlush configured.1.2 configured.2
               [[x01; x02]; [x03]; [x04; x05; x06]] in
  (CudaBufferReader.Read sample_reader run.2 6).1.1.2
  = Some [x01; x02; x03; x04; x05; x06].
Proof.
  intros configured run.
  assert (WriteAllThenFlush configured.1.2 configured.2
            [[x01; x02]; [x03]; [x04; x05; x06]]
          = (OK, run.1.2, run.2)) as Hrun by (vm_compute; reflexivity).
  apply Write_Flush_read_back in Hrun as [_ H];
    [| unfold staging_wf; simpl; lia | reflexivity].
  exact (f_equal (fun x => x.1.2) (H eq_refl ltac:(simpl; lia))).
Defined.

(** [SetBufferSize] loses no staged byte: when it succeeds the staging
    area is empty and has the new capacity, the cursor is where it was, and
    the bytes that were staged are in device memory at their position. *)
Theorem SetBufferSize_commits_staged w ctx n w' ctx' :
  staging_wf w →
  CudaBuffer.data_ (buffer_ w) = mutable_data_ w →
  CudaBufferWriter.SetBufferSize w ctx n = (OK, w', ctx') →
  CudaBufferWriter.buffer_size w' = n ∧
  CudaBufferWriter.num_bytes_buffered w' = 0 ∧
  position_ w' = position_ w ∧
  (CudaBuffer.CopyToHost (buffer_ w') ctx'
     (position_ w - buffer_position_ w) (buffer_position_ w)).1
  = (OK, Some (staged w)).
Proof.
  intros Hwf Hdata.
  unfold CudaBufferWriter.SetBufferSize, SetBufferSize,
    CudaBufferWriter.buffer_size, CudaBufferWriter.num_bytes_buffered,
    buffer_size, buffer_position.
  assert (∃ st w1 ctx1,
    (if 0 <? buffer_position_ w then Flush w ctx else (OK, w, ctx))
    = (st, w1, ctx1) ∧
    (st = OK →
     w1 = set_buffer_position_ 0 w ∧
     load (CudaContext.device_memory ctx1)
       (mutable_data_ w + position_ w - buffer_position_ w)
       (Z.to_nat (buffer_position_ w)) = Some (staged w)))
    as (st & w1 & ctx1 & -> & H1).
  { destruct (Z.ltb_spec 0 (buffer_position_ w)) as [Hp|Hp].
    - assert (0 < buffer_size_ w) as Hs
        by (destruct Hwf as (_ & [?|?] & _); lia).
      destruct (Flush_effect w ctx Hwf Hs) as [_ HF].
      pose proof (staged_length w Hwf Hs) as Hlen.
      destruct (Flush w ctx) as [[st w1] ctx1]. exists st, w1, ctx1.
      simpl in HF. split; [done|]. intros ->.
      destruct (HF eq_refl) as [-> Hm].
      split; [done|]. rewrite Hm.
      replace (Z.to_nat (buffer_position_ w)) with (length (staged w)) by lia.
      apply load_store.
    - assert (buffer_position_ w = 0) as Hz
        by (destruct Hwf as (? & _); lia).
      exists OK, w, ctx. split; [done|]. intros _.
      split; [by rewrite <- Hz, set_buffer_position__id|].
      unfold staged. by rewrite Hz. }
  destruct st; try done. destruct (H1 eq_refl) as [-> Hload].
  unfold AllocateCudaHostBuffer, CudaContext.AllocateHost.
  destruct (0 <=? n); [|done]. intros [= <- <-]. simpl.
  repeat split.
  unfold CudaBuffer.CopyToHost, CudaContext.CopyDeviceToHost. simpl.
  destruct Hwf as (Hnonneg & _).
  destruct (Z.leb_spec 0 (buffer_position_ w)); [|lia].
  rewrite Hdata.
  replace (mutable_data_ w + (position_ w - buffer_position_ w))
    with (mutable_data_ w + position_ w - buffer_position_ w) by lia.
  by rewrite Hload.
Qed.

Lemma SetBufferSize_commits_staged_witness :
  let r := CudaBufferWriter.SetBufferSize sample_staged_writer
             sample_context 6 in
  CudaBufferWriter.buffer_size r.1.2 = 6 ∧
  CudaBufferWriter.num_bytes_buffered r.1.2 = 0 ∧
  (CudaBuffer.CopyToHost (buffer_ r.1.2) r.2 0 1).1 = (OK, Some [x07]).
Proof.
  cbv zeta.
  destruct (CudaBufferWriter.SetBufferSize _ _ _) as [[st w'] ctx'] eqn:HS.
  assert (st = OK) as -> by (by vm_compute in HS; simplify_eq).
  apply SetBufferSize_commits_staged in HS as (H1 & H2 & _ & H4);
    [| exact staging_wf_sample_staged_writer | reflexivity].
  split; [exact H1|]. split; [exact H2 | exact H4].
Defined.

End WriterFurther.

(** ** More on buffers and handles *)

Section BufferFurther.

Import CudaBuffer.

Implicit Types (b : CudaBuffer.t) (ctx : CudaContext.t).

(** Bytes copied into a buffer are the bytes copied out of it: after a
    [CopyFromHost] that completed with OK, [CopyToHost] at the same position
    and of the same length returns the bytes given. *)
Theorem CopyFromHost_CopyToHost b ctx position (data : list byte) ctx' :
  data_ b = mutable_data_ b →
  CopyFromHost b ctx position data = Completed (OK, ctx') →
  (CopyToHost b ctx' position (Z.of_nat (length data))).1 = (OK, Some data).
Proof.
  intros Hdata. unfold CopyFromHost, CopyToHost.
  destruct (_ <=? _); [|done].
  unfold CudaContext.CopyHostToDevice, CudaContext.CopyDeviceToHost.
  destruct (range_mapped _ _ _); intros [= <-]. simpl.
  destruct (Z.leb_spec 0 (Z.of_nat (length data))); [|lia].
  by rewrite Hdata, Nat2Z.id, load_store.
Qed.

Lemma CopyFromHost_CopyToHost_witness :
  (CopyToHost sample_buffer
     (CudaContext.CopyHostToDevice sample_context 102 [x0a; x0b]).2
     2 (Z.of_nat (length [x0a; x0b]))).1
  = (OK, Some [x0a; x0b]).
Proof.
  apply (CopyFromHost_CopyToHost sample_buffer sample_context 2 [x0a; x0b]);
    [reflexivity | vm_compute; reflexivity].
Defined.

(** [Close] keeps no record of a release: it leaves the flags of the buffer
    as they are, so closing an owning buffer that is not an IPC mapping a
    second time asks the context to free the same allocation again. *)
Theorem Close_twice_frees_twice b ctx :
  own_data_ b = true → is_ipc_ b = false →
  CudaContext.driver_calls (Close b (Close b ctx).2).2
  = CudaContext.driver_calls ctx
      ++ [Call_Free (mutable_data_ b) (size_ b);
          Call_Free (mutable_data_ b) (size_ b)].
Proof.
  intros Ho Hi. unfold Close. rewrite Ho, Hi. unfold CudaContext.Free.
  destruct (_ && _); simpl; destruct (_ && _); simpl;
    by rewrite <- app_assoc.
Qed.

Lemma Close_twice_frees_twice_witness :
  CudaContext.driver_calls
    (Close sample_buffer (Close sample_buffer sample_context).2).2
  = CudaContext.driver_calls sample_context
      ++ [Call_Free 100 8; Call_Free 100 8].
Proof.
  apply (Close_twice_frees_twice sample_buffer sample_context); reflexivity.
Defined.

Lemma Serialize_token (h : CudaIpcMemHandle.t)
      (pool : CudaIpcMemHandle.MemoryPool) :
  length (CudaIpcMemHandle.ipc_handle h) = CudaIpcMemHandle.kHandleSize →
  (CudaIpcMemHandle.kHandleSize
   <= length (CudaIpcMemHandle.free_bytes pool))%nat →
  (CudaIpcMemHandle.Serialize h pool).1
  = (OK, Some (CudaIpcMemHandle.ipc_handle h)).
Proof.
  intros Hh Hp.
  unfold CudaIpcMemHandle.Serialize, CudaIpcMemHandle.AllocateBuffer.
  destruct (Z.leb_spec 0 (Z.of_nat CudaIpcMemHandle.kHandleSize)); [|lia].
  destruct (Z.leb_spec (Z.of_nat CudaIpcMemHandle.kHandleSize)
              (Z.of_nat (length (CudaIpcMemHandle.free_bytes pool))));
    [|lia].
  simpl andb. cbv iota. cbn [fst]. do 2 f_equal.
  unfold memcpy. rewrite take_0, app_nil_l, Nat.add_0_l.
  rewrite (take_ge (CudaIpcMemHandle.ipc_handle h)) by lia.
  rewrite drop_ge; [by rewrite app_nil_r|].
  rewrite length_take. lia.
Qed.

(** A handle holds the first [kHandleSize] bytes it was built from and
    nothing else: [FromBuffer] followed by [Serialize] returns exactly these
    bytes, whatever follows them in the input. *)
Theorem FromBuffer_Serialize (opaque_handle : list byte)
        (pool : CudaIpcMemHandle.MemoryPool) :
  (CudaIpcMemHandle.kHandleSize <= length opaque_handle)%nat →
  (CudaIpcMemHandle.kHandleSize
   <= length (CudaIpcMemHandle.free_bytes pool))%nat →
  (CudaIpcMemHandle.FromBuffer opaque_handle).1 = OK ∧
  (CudaIpcMemHandle.Serialize (CudaIpcMemHandle.FromBuffer opaque_handle).2
     pool).1
  = (OK, Some (take CudaIpcMemHandle.kHandleSize opaque_handle)).
Proof.
  intros Hh Hp. split; [done|].
  rewrite Serialize_token; [done | | done].
  simpl. rewrite length_take. lia.
Qed.

Lemma FromBuffer_Serialize_witness :
  (CudaIpcMemHandle.Serialize
     (CudaIpcMemHandle.FromBuffer (replicate 64 x2a ++ [x01; x02])).2
     sample_pool).1
  = (OK, Some (take CudaIpcMemHandle.kHandleSize
                 (replicate 64 x2a ++ [x01; x02]))).
Proof.
  apply (FromBuffer_Serialize (replicate 64 x2a ++ [x01; x02]) sample_pool);
    vm_compute; lia.
Defined.

(** The handle an export returns survives serialization: [Serialize] gives
    [kHandleSize] bytes and [FromBuffer] on them gives the handle back. *)
Theorem ExportForIpc_Serialize_FromBuffer b ctx handle b' ctx'
        (pool : CudaIpcMemHandle.MemoryPool) :
  ExportForIpc b ctx = (OK, Some handle, b', ctx') →
  (CudaIpcMemHandle.kHandleSize
   <= length (CudaIpcMemHandle.free_bytes pool))%nat →
  ∃ bytes,
    (CudaIpcMemHandle.Serialize handle pool).1 = (OK, Some bytes) ∧
    length bytes = CudaIpcMemHandle.kHandleSize ∧
    CudaIpcMemHandle.FromBuffer bytes = (OK, handle).
Proof.
  intros HE Hp.
  assert (length (CudaIpcMemHandle.ipc_handle handle)
          = CudaIpcMemHandle.kHandleSize) as Hlen.
  { unfold ExportForIpc, CudaContext.ExportIpcBuffer in HE.
    destruct (is_ipc_ b); [done|].
    destruct (bool_decide _); [|done]. by simplify_eq. }
  exists (CudaIpcMemHandle.ipc_handle handle).
  split; [by apply Serialize_token|]. split; [done|].
  unfold CudaIpcMemHandle.FromBuffer, CudaIpcMemHandle.CudaIpcMemHandle,
    CudaIpcMemHandle.CudaIpcMemHandleImpl.
  rewrite <- Hlen, firstn_all. by destruct handle.
Qed.

Lemma ExportForIpc_Serialize_FromBuffer_witness :
  ∃ bytes,
    (CudaIpcMemHandle.Serialize sample_handle sample_pool).1
    = (OK, Some bytes) ∧
    length bytes = CudaIpcMemHandle.kHandleSize ∧
    CudaIpcMemHandle.FromBuffer bytes = (OK, sample_handle).
Proof.
  eapply (ExportForIpc_Serialize_FromBuffer sample_buffer sample_context);
    [vm_compute; reflexivity | vm_compute; lia].
Defined.

End BufferFurther.
